(** * The [tsuru_certificate_issuer] resource of the Terraform provider

    A shallow embedding of
    [internal/provider/resource_tsuru_certificate_issuer.go]: the three
    handlers [resourceTsuruCertificateIssuerSet],
    [resourceTsuruCertificateIssuerUnset] and
    [resourceTsuruCertificateIssuerRead], the resource data they mutate and
    the remote application API they call.

    Go strings are byte strings ([string]); a Go [error] is its message; Go
    maps are [gmap]s, and a [range] over a map is an iteration over an
    arbitrary enumeration of its entries. *)

From Stdlib Require Import String Ascii.
From stdpp Require Import gmap strings list sorting.

(** ** Go values used by the handlers *)

(** A Go [error], identified with the text of its [Error()] method. *)
Definition error := string.

(** What running a handler produces: it returns, or the Go runtime panics
    (an index out of range). *)
Inductive outcome (A : Type) : Type :=
  | Returned (a : A)
  | Panicked.
Arguments Returned {A} a.
Arguments Panicked {A}.

(** ** Package [strings] *)
Module strings.

(** [consHead c l] puts [c] in front of the first string of [l]. *)
Definition consHead (c : ascii) (l : list string) : list string :=
  match l with
  | p :: ps => String c p :: ps
  | [] => [String c ""]
  end.

(** [splitFrom sep skip s]: the pieces of [s] between the leftmost,
    non-overlapping occurrences of [sep], after dropping [skip] bytes. *)
Fixpoint splitFrom (sep : string) (skip : nat) (s : string) : list string :=
  match s with
  | "" => [""]
  | String c s' =>
      match skip with
      | S k => splitFrom sep k s'
      | O =>
          if String.prefix sep s
          then "" :: splitFrom sep (String.length sep - 1) s'
          else consHead c (splitFrom sep 0 s')
      end
  end.

(** [strings.Split(s, sep)] for a non-empty separator. *)
Definition Split (s sep : string) : list string := splitFrom sep 0 s.

(** [strings.Contains(s, substr)]. *)
Fixpoint Contains (s substr : string) : bool :=
  match s with
  | "" => String.prefix substr ""
  | String _ s' => String.prefix substr s || Contains s' substr
  end.

End strings.

(** ** Package [sort] *)
Module sort.

(** [sort.Strings] sorts in increasing byte-wise lexicographic order.
    That order is total and antisymmetric, so the result is the one sorted
    arrangement of the input whatever algorithm computes it
    (see [Strings_unique]). *)
Definition Strings (x : list string) : list string :=
  merge_sort String.le x.

End sort.

(** ** The identifier helpers shared by the resources *)

(** Modelled from the spec: the delimiter joining the fields of a persisted
    identifier, whose format is "app::cname::issuer". The constant is
    declared outside the source file of this resource. *)
Definition ID_SEPARATOR : string := "::".

(** Modelled from the spec: [IDtoParts], the identifier parser shared by the
    resources, is not in the source file of this resource. The spec says that
    it parses the identifier, of format "app::cname::issuer", back into its
    three parts, and that a malformed identifier is an error; the handlers
    call it as [IDtoParts(d.Id(), 3)] and receive the parts and an error.
    Here it splits at the delimiter and accepts exactly [n] parts. The text
    of the error is not specified; no statement below depends on it. *)
Definition IDtoParts (input : string) (n : nat) : list string * option error :=
  let parts := strings.Split input ID_SEPARATOR in
  if Nat.eqb (List.length parts) n
  then (parts, None)
  else ([], Some ("invalid resource id: " +:+ input)).

(** ** Package [diag] of the plugin SDK *)
Module diag.

Inductive Severity : Type := Error | Warning.

Record Diagnostic : Type := { Severity_ : Severity; Summary : string }.

(** [diag.Diagnostics]; the handlers return [nil] for success. *)
Definition Diagnostics : Type := list Diagnostic.

(** [diag.FromErr(err)] for a non-nil [err]. *)
Definition FromErr (err : error) : Diagnostics :=
  [{| Severity_ := Error; Summary := err |}].

(** [diag.Errorf(format, err)] for a [format] that ends in the verb [%v]:
    [prefix] is the text of the format before the verb. *)
Definition Errorf (prefix : string) (err : error) : Diagnostics :=
  [{| Severity_ := Error; Summary := prefix +:+ err |}].

(** [Diagnostics.HasError()]. *)
Definition HasError (diags : Diagnostics) : bool :=
  existsb (fun x => match Severity_ x with Error => true | Warning => false end) diags.

End diag.

(** ** Package [schema] of the plugin SDK *)
Module schema.

(** [schema.ResourceData] for the schema of this resource: the identifier
    and one typed attribute per key of the [Schema] map. [d.Get(key)] with
    its type assertion is the projection of that key; [d.Set(key, value)]
    replaces the attribute (the handlers drop the error it returns). *)
Record ResourceData : Type := {
  id : string;
  app : string;
  cname : string;
  issuer : string;
  router : list string;
  certificate : list string;
  ready : bool
}.

Definition Id (d : ResourceData) : string := id d.

Definition SetId (v : string) (d : ResourceData) : ResourceData :=
  {| id := v; app := app d; cname := cname d; issuer := issuer d;
     router := router d; certificate := certificate d; ready := ready d |}.

(** [d.Set(key, value)], one function per key. *)
Definition Set_app (v : string) (d : ResourceData) : ResourceData :=
  {| id := id d; app := v; cname := cname d; issuer := issuer d;
     router := router d; certificate := certificate d; ready := ready d |}.

Definition Set_cname (v : string) (d : ResourceData) : ResourceData :=
  {| id := id d; app := app d; cname := v; issuer := issuer d;
     router := router d; certificate := certificate d; ready := ready d |}.

Definition Set_issuer (v : string) (d : ResourceData) : ResourceData :=
  {| id := id d; app := app d; cname := cname d; issuer := v;
     router := router d; certificate := certificate d; ready := ready d |}.

Definition Set_router (v : list string) (d : ResourceData) : ResourceData :=
  {| id := id d; app := app d; cname := cname d; issuer := issuer d;
     router := v; certificate := certificate d; ready := ready d |}.

Definition Set_certificate (v : list string) (d : ResourceData) : ResourceData :=
  {| id := id d; app := app d; cname := cname d; issuer := issuer d;
     router := router d; certificate := v; ready := ready d |}.

Definition Set_ready (v : bool) (d : ResourceData) : ResourceData :=
  {| id := id d; app := app d; cname := cname d; issuer := issuer d;
     router := router d; certificate := certificate d; ready := v |}.

End schema.

(** ** Package [tsuru] of the API client *)
Module tsuru.

(** The body of the assign-certificate-issuer request. *)
Module CertIssuerSetData.
Record t : Type := { Cname : string; Issuer : string }.
End CertIssuerSetData.

(** What a router reports for one CNAME. *)
Record AppCertificatesCname : Type := { Certificate : string; Issuer : string }.

(** What a router reports: its table of CNAMEs. *)
Record AppCertificatesRouter : Type := {
  Cnames : gmap string AppCertificatesCname
}.

(** The certificate listing of an application, by router name. *)
Record AppCertificates : Type := {
  Routers : gmap string AppCertificatesRouter
}.

End tsuru.

(** A call of the remote API, as the client sends it. *)
Inductive Call : Type :=
  | CallAppSetCertIssuer (app : string) (data : tsuru.CertIssuerSetData.t)
  | CallAppUnsetCertIssuer (app cname : string)
  | CallAppGetCertificates (app : string).

(** ** The provider and the remote control plane *)
Section Provider.

(** The state of the remote control plane. *)
Context {Server : Type}.

(** The application API of the client: each operation is a request to the
    control plane, which may change its state and may fail. *)
Record AppApiService : Type := {
  AppSetCertIssuer :
    string → tsuru.CertIssuerSetData.t → Server → option error * Server;
  AppUnsetCertIssuer :
    string → string → Server → option error * Server;
  AppGetCertificates :
    string → Server → tsuru.AppCertificates * option error * Server
}.

Record APIClient : Type := { AppApi : AppApiService }.

Record tsuruProvider : Type := { TsuruClient : APIClient }.

(** The world outside the handler: the control plane and the requests it has
    received so far, oldest first. *)
Record World : Type := { server : Server; calls : list Call }.

Definition request (c : Call) (s : Server) (w : World) : World :=
  {| server := s; calls := calls w ++ [c] |}.

(** [provider.TsuruClient.AppApi.AppSetCertIssuer(ctx, app, data)]. *)
Definition callAppSetCertIssuer (provider : tsuruProvider)
    (app : string) (data : tsuru.CertIssuerSetData.t) (w : World)
  : option error * World :=
  let '(err, s) := AppSetCertIssuer (AppApi (TsuruClient provider)) app data (server w) in
  (err, request (CallAppSetCertIssuer app data) s w).

(** [provider.TsuruClient.AppApi.AppUnsetCertIssuer(ctx, app, cname)]. *)
Definition callAppUnsetCertIssuer (provider : tsuruProvider)
    (app cname : string) (w : World) : option error * World :=
  let '(err, s) := AppUnsetCertIssuer (AppApi (TsuruClient provider)) app cname (server w) in
  (err, request (CallAppUnsetCertIssuer app cname) s w).

(** [provider.TsuruClient.AppApi.AppGetCertificates(ctx, app)]. *)
Definition callAppGetCertificates (provider : tsuruProvider)
    (app : string) (w : World) : tsuru.AppCertificates * option error * World :=
  let '(certificates, err, s) := AppGetCertificates (AppApi (TsuruClient provider)) app (server w) in
  (certificates, err, request (CallAppGetCertificates app) s w).

(** The order in which [range] visits the entries of a map of routers. The
    Go runtime picks it; the handlers are defined for any choice. *)
Variable rangeRouters :
  gmap string tsuru.AppCertificatesRouter → list (string * tsuru.AppCertificatesRouter).

(** ** The handlers *)

(** One iteration of the loop of [resourceTsuruCertificateIssuerRead] over
    [certificates.Routers], on the pair of slices it appends to. *)
Definition readLoopBody (cname issuer : string)
    (acc : list string * list string)
    (entry : string * tsuru.AppCertificatesRouter) : list string * list string :=
  let '(usedRouters, usedCertificates) := acc in
  let '(routerName, router) := entry in
  match tsuru.Cnames router !! cname with
  | None => acc
  | Some cnameInRouter =>
      if negb (String.eqb (tsuru.Issuer cnameInRouter) issuer) then acc
      else
        let usedRouters := usedRouters ++ [routerName] in
        if negb (String.eqb (tsuru.Certificate cnameInRouter) "")
        then (usedRouters, usedCertificates ++ [tsuru.Certificate cnameInRouter])
        else (usedRouters, usedCertificates)
  end.

Definition resourceTsuruCertificateIssuerRead
    (d : schema.ResourceData) (meta : tsuruProvider) (w : World)
  : outcome (diag.Diagnostics * schema.ResourceData * World) :=
  let provider := meta in
  let '(parts, err) := IDtoParts (schema.Id d) 3 in
  match err with
  | Some err => Returned (diag.FromErr err, d, w)
  | None =>
      match parts !! 0%nat, parts !! 1%nat, parts !! 2%nat with
      | Some app, Some cname, Some issuer =>
          let '(certificates, err, w) := callAppGetCertificates provider app w in
          match err with
          | Some err => Returned (diag.FromErr err, d, w)
          | None =>
              let '(usedRouters, usedCertificates) :=
                fold_left (readLoopBody cname issuer)
                  (rangeRouters (tsuru.Routers certificates)) ([], []) in
              let usedRouters := sort.Strings usedRouters in
              let usedCertificates := sort.Strings usedCertificates in
              let d := schema.Set_app app d in
              let d := schema.Set_cname cname d in
              let d := schema.Set_issuer issuer d in
              let d := schema.Set_router usedRouters d in
              let d := schema.Set_certificate usedCertificates d in
              let d := schema.Set_ready (0 <? List.length usedCertificates)%nat d in
              Returned ([], d, w)
          end
      | _, _, _ => Panicked
      end
  end.

Definition resourceTsuruCertificateIssuerSet
    (d : schema.ResourceData) (meta : tsuruProvider) (w : World)
  : outcome (diag.Diagnostics * schema.ResourceData * World) :=
  let provider := meta in
  let app := schema.app d in
  let cname := schema.cname d in
  let issuer := schema.issuer d in
  let '(err, w) :=
    callAppSetCertIssuer provider app
      {| tsuru.CertIssuerSetData.Cname := cname;
         tsuru.CertIssuerSetData.Issuer := issuer |} w in
  match err with
  | Some err => Returned (diag.Errorf "unable to set certificate issuer: " err, d, w)
  | None =>
      let d := schema.SetId ((((app +:+ "::") +:+ cname) +:+ "::") +:+ issuer) d in
      resourceTsuruCertificateIssuerRead d meta w
  end.

Definition resourceTsuruCertificateIssuerUnset
    (d : schema.ResourceData) (meta : tsuruProvider) (w : World)
  : outcome (diag.Diagnostics * schema.ResourceData * World) :=
  let provider := meta in
  let '(parts, err) := IDtoParts (schema.Id d) 3 in
  match err with
  | Some err => Returned (diag.FromErr err, d, w)
  | None =>
      match parts !! 0%nat, parts !! 1%nat with
      | Some app, Some cname =>
          let '(err, w) := callAppUnsetCertIssuer provider app cname w in
          match err with
          | Some err =>
              Returned (diag.Errorf "unable to unset certificate issuer: " err, d, w)
          | None => resourceTsuruCertificateIssuerRead d meta w
          end
      | _, _ => Panicked
      end
  end.

End Provider.

Arguments AppApiService : clear implicits.
Arguments APIClient : clear implicits.
Arguments tsuruProvider : clear implicits.
Arguments World : clear implicits.

(** ** A small control plane, to run the handlers on concrete inputs *)
Module demo.

(** The control plane keeps the certificate listing of every application. *)
Definition Server : Type := gmap string tsuru.AppCertificates.

Definition assign (cname issuer : string)
    (r : tsuru.AppCertificatesRouter) : tsuru.AppCertificatesRouter :=
  {| tsuru.Cnames :=
       <[cname := {| tsuru.Certificate := ""; tsuru.Issuer := issuer |}]>
         (tsuru.Cnames r) |}.

Definition unassign (cname : string)
    (r : tsuru.AppCertificatesRouter) : tsuru.AppCertificatesRouter :=
  {| tsuru.Cnames := delete cname (tsuru.Cnames r) |}.

Definition api : AppApiService Server := {|
  AppSetCertIssuer app data s :=
    match s !! app with
    | None => (Some "App not found", s)
    | Some c =>
        (None,
         <[app := {| tsuru.Routers :=
                       assign (tsuru.CertIssuerSetData.Cname data)
                              (tsuru.CertIssuerSetData.Issuer data)
                         <$> tsuru.Routers c |}]> s)
    end;
  AppUnsetCertIssuer app cname s :=
    match s !! app with
    | None => (Some "App not found", s)
    | Some c =>
        (None, <[app := {| tsuru.Routers := unassign cname <$> tsuru.Routers c |}]> s)
    end;
  AppGetCertificates app s :=
    match s !! app with
    | None => ({| tsuru.Routers := ∅ |}, Some "App not found", s)
    | Some c => (c, None, s)
    end
|}.

Definition provider : tsuruProvider Server :=
  {| TsuruClient := {| AppApi := api |} |}.

Definition entry (cname certificate issuer : string) : tsuru.AppCertificatesRouter :=
  {| tsuru.Cnames :=
       {[ cname := {| tsuru.Certificate := certificate; tsuru.Issuer := issuer |} ]} |}.

(** Four routers: two serve the CNAME under "letsencrypt" (one has its
    certificate already), one under another issuer, one another CNAME. *)
Definition listing : tsuru.AppCertificates :=
  {| tsuru.Routers :=
       {[ "nginx" := entry "www.example.com" "PEM-nginx" "letsencrypt";
          "envoy" := entry "www.example.com" "" "letsencrypt";
          "haproxy" := entry "www.example.com" "PEM-haproxy" "digicert";
          "legacy" := entry "old.example.com" "PEM-legacy" "letsencrypt" ]} |}.

Definition world : World Server :=
  {| server := {[ "myapp" := listing ]}; calls := [] |}.

(** The resource data of a binding that is planned but not yet created. *)
Definition planned : schema.ResourceData :=
  {| schema.id := ""; schema.app := "myapp"; schema.cname := "www.example.com";
     schema.issuer := "letsencrypt"; schema.router := [];
     schema.certificate := []; schema.ready := false |}.

(** The resource data of the binding once created. *)
Definition created : schema.ResourceData :=
  schema.SetId "myapp::www.example.com::letsencrypt" planned.

(** The binding of the same CNAME to an issuer that no router serves. *)
Definition unserved : schema.ResourceData :=
  schema.SetId "myapp::www.example.com::zerossl" planned.

(** The world after the listing of "myapp" is fetched. *)
Definition fetched : World Server :=
  request (CallAppGetCertificates "myapp") (server world) world.

(** Two iteration orders of a map of routers. *)
Definition ascending (m : gmap string tsuru.AppCertificatesRouter) :=
  map_to_list m.

Definition descending (m : gmap string tsuru.AppCertificatesRouter) :=
  reverse (map_to_list m).

End demo.

(** ** The words of the spec, as definitions *)

(** A field that can be the first or the second of an identifier: no
    delimiter starts inside it, also when the delimiter follows it. *)
Definition validField (s : string) : bool :=
  negb (strings.Contains (s +:+ ":") ID_SEPARATOR).

(** A field that can be the last of an identifier: it has no delimiter. *)
Definition validLastField (s : string) : bool :=
  negb (strings.Contains s ID_SEPARATOR).

(** What the router [router] reports for [cname], when it serves it under
    [issuer]. *)
Definition servedUnder (cname issuer : string)
    (router : tsuru.AppCertificatesRouter) : option tsuru.AppCertificatesCname :=
  c ← tsuru.Cnames router !! cname;
  if decide (tsuru.Issuer c = issuer) then Some c else None.

(** The routers of an iteration that serve [cname] under [issuer]. *)
Definition routersServing (cname issuer : string)
    (l : list (string * tsuru.AppCertificatesRouter)) : list string :=
  omap (λ e, _ ← servedUnder cname issuer e.2; Some e.1) l.

(** The certificate of a report, unless it is empty. *)
Definition issued (c : tsuru.AppCertificatesCname) : option string :=
  if decide (tsuru.Certificate c = "") then None else Some (tsuru.Certificate c).

(** The non-empty certificates of those routers. *)
Definition certificatesIssued (cname issuer : string)
    (l : list (string * tsuru.AppCertificatesRouter)) : list string :=
  omap (λ e, servedUnder cname issuer e.2 ≫= issued) l.

(** The non-empty certificate that the router named [name] of a listing
    reports for [cname]. *)
Definition certificateOf (certificates : tsuru.AppCertificates)
    (cname : string) (name : string) : option string :=
  router ← tsuru.Routers certificates !! name;
  c ← tsuru.Cnames router !! cname;
  issued c.

(** The requests the control plane has received when a handler is done. *)
Definition requests {Server : Type}
    (o : outcome (diag.Diagnostics * schema.ResourceData * World Server))
  : list Call :=
  match o with
  | Returned (_, _, w) => calls w
  | Panicked => []
  end.

(** ** The resource definition *)
Module resource.

(** [schema.ValueType], for the types this resource uses. *)
Inductive ValueType : Type := TypeString | TypeList | TypeBool.

(** [schema.Schema]: the fields the definition sets, and [Optional], which
    it leaves at its zero value. *)
Record Schema : Type := {
  Type_ : ValueType;
  Description : string;
  Required : bool;
  Optional : bool;
  ForceNew : bool;
  Computed : bool;
  Elem : option ValueType
}.

(** [time.Duration], in nanoseconds. *)
Definition Duration : Type := Z.

Definition Minute : Duration := (60 * 1000000000)%Z.

(** [schema.ResourceTimeout]. *)
Record ResourceTimeout : Type := {
  Create : option Duration;
  Update : option Duration;
  Delete : option Duration
}.

(** [schema.DefaultTimeout]. *)
Definition DefaultTimeout (tx : Duration) : option Duration := Some tx.

(** The value of an attribute of the resource data. *)
Inductive Value : Type :=
  | VString (s : string)
  | VList (l : list string)
  | VBool (b : bool).

Definition typeOf (v : Value) : ValueType :=
  match v with
  | VString _ => TypeString
  | VList _ => TypeList
  | VBool _ => TypeBool
  end.

(** [d.Get(key)] by key, where the resource data has the key. *)
Definition GetOk (d : schema.ResourceData) (key : string) : option Value :=
  if decide (key = "app") then Some (VString (schema.app d))
  else if decide (key = "cname") then Some (VString (schema.cname d))
  else if decide (key = "issuer") then Some (VString (schema.issuer d))
  else if decide (key = "router") then Some (VList (schema.router d))
  else if decide (key = "certificate") then Some (VList (schema.certificate d))
  else if decide (key = "ready") then Some (VBool (schema.ready d))
  else None.

Section Resource.

Context {Server : Type}.

(** The signature of the handlers. *)
Definition ContextFunc : Type :=
  schema.ResourceData → tsuruProvider Server → World Server
  → outcome (diag.Diagnostics * schema.ResourceData * World Server).

(** [schema.StateContextFunc], the signature of an importer. *)
Definition StateContextFunc : Type :=
  schema.ResourceData → tsuruProvider Server → World Server
  → outcome (list schema.ResourceData * option error * World Server).

(** [schema.Resource]. *)
Record Resource : Type := {
  ResourceDescription : string;
  CreateContext : option ContextFunc;
  ReadContext : option ContextFunc;
  UpdateContext : option ContextFunc;
  DeleteContext : option ContextFunc;
  Timeouts : ResourceTimeout;
  Importer : option StateContextFunc;
  Schema_ : gmap string Schema
}.

End Resource.

Arguments Resource : clear implicits.
Arguments ContextFunc : clear implicits.
Arguments StateContextFunc : clear implicits.

End resource.

(** [resourceTsuruCertificateIssuer]. The importer it names,
    [resourceTsuruApplicationImport], is declared in another file and is a
    parameter here. *)
Definition resourceTsuruCertificateIssuer {Server : Type}
    (rangeRouters :
       gmap string tsuru.AppCertificatesRouter
       → list (string * tsuru.AppCertificatesRouter))
    (resourceTsuruApplicationImport : resource.StateContextFunc Server)
  : resource.Resource Server :=
  {| resource.ResourceDescription :=
       "Set a issuer to generate certificates to a tsuru application";
     resource.CreateContext := Some (resourceTsuruCertificateIssuerSet rangeRouters);
     resource.ReadContext := Some (resourceTsuruCertificateIssuerRead rangeRouters);
     resource.UpdateContext := None;
     resource.DeleteContext := Some (resourceTsuruCertificateIssuerUnset rangeRouters);
     resource.Timeouts :=
       {| resource.Create := resource.DefaultTimeout (60 * resource.Minute)%Z;
          resource.Update := resource.DefaultTimeout (60 * resource.Minute)%Z;
          resource.Delete := resource.DefaultTimeout (60 * resource.Minute)%Z |};
     resource.Importer := Some resourceTsuruApplicationImport;
     resource.Schema_ :=
       {[ "app" :=
            {| resource.Type_ := resource.TypeString;
               resource.Description := "Application name";
               resource.Required := true; resource.Optional := false;
               resource.ForceNew := true; resource.Computed := false;
               resource.Elem := None |};
          "cname" :=
            {| resource.Type_ := resource.TypeString;
               resource.Description := "Application CNAME";
               resource.Required := true; resource.Optional := false;
               resource.ForceNew := true; resource.Computed := false;
               resource.Elem := None |};
          "issuer" :=
            {| resource.Type_ := resource.TypeString;
               resource.Description := "Certificate Issuer";
               resource.Required := true; resource.Optional := false;
               resource.ForceNew := true; resource.Computed := false;
               resource.Elem := None |};
          "router" :=
            {| resource.Type_ := resource.TypeList;
               resource.Description := "Routers that are using the certificate";
               resource.Required := false; resource.Optional := false;
               resource.ForceNew := false; resource.Computed := true;
               resource.Elem := Some resource.TypeString |};
          "certificate" :=
            {| resource.Type_ := resource.TypeList;
               resource.Description :=
                 "Certificate Generated by Issuer, filled after the certificate is ready";
               resource.Required := false; resource.Optional := false;
               resource.ForceNew := false; resource.Computed := true;
               resource.Elem := Some resource.TypeString |};
          "ready" :=
            {| resource.Type_ := resource.TypeBool;
               resource.Description := "If the certificate is ready";
               resource.Required := false; resource.Optional := false;
               resource.ForceNew := false; resource.Computed := true;
               resource.Elem := None |} ]} |}.

(** The identifier that set composes from the attributes of [d]. *)
Definition composedId (d : schema.ResourceData) : string :=
  (((schema.app d +:+ "::") +:+ schema.cname d) +:+ "::") +:+ schema.issuer d.

(** The three ways in which read ends. *)
Inductive ReadPath {Server : Type}
    (rangeRouters :
       gmap string tsuru.AppCertificatesRouter
       → list (string * tsuru.AppCertificatesRouter))
    (meta : tsuruProvider Server)
    (d : schema.ResourceData) (w : World Server)
  : diag.Diagnostics → schema.ResourceData → World Server → Prop :=
  | ReadParseError parts err :
      IDtoParts (schema.Id d) 3 = (parts, Some err) →
      ReadPath rangeRouters meta d w (diag.FromErr err) d w
  | ReadFetchError app cname issuer certificates err w' :
      IDtoParts (schema.Id d) 3 = ([app; cname; issuer], None) →
      callAppGetCertificates meta app w = (certificates, Some err, w') →
      ReadPath rangeRouters meta d w (diag.FromErr err) d w'
  | ReadDone app cname issuer certificates w' d' :
      IDtoParts (schema.Id d) 3 = ([app; cname; issuer], None) →
      callAppGetCertificates meta app w = (certificates, None, w') →
      d' = {| schema.id := schema.id d;
              schema.app := app;
              schema.cname := cname;
              schema.issuer := issuer;
              schema.router :=
                sort.Strings
                  (routersServing cname issuer
                     (rangeRouters (tsuru.Routers certificates)));
              schema.certificate :=
                sort.Strings
                  (certificatesIssued cname issuer
                     (rangeRouters (tsuru.Routers certificates)));
              schema.ready :=
                (0 <? List.length
                        (sort.Strings
                           (certificatesIssued cname issuer
                              (rangeRouters (tsuru.Routers certificates)))))%nat |} →
      ReadPath rangeRouters meta d w [] d' w'.

(** ** More of the small control plane *)
Module scenario.

(** The listing of [demo.listing] without the routers that do not serve
    "www.example.com" under "letsencrypt". *)
Definition trimmed : tsuru.AppCertificates :=
  {| tsuru.Routers :=
       {[ "nginx" := demo.entry "www.example.com" "PEM-nginx" "letsencrypt";
          "envoy" := demo.entry "www.example.com" "" "letsencrypt" ]} |}.

Definition trimmedWorld : World demo.Server :=
  {| server := {[ "myapp" := trimmed ]}; calls := [] |}.

(** The world after the listing of "myapp" is fetched twice. *)
Definition fetchedTwice : World demo.Server :=
  request (CallAppGetCertificates "myapp") (server demo.fetched) demo.fetched.

(** A control plane that accepts every assignment and whose listings
    cannot be fetched. *)
Definition unreadable : AppApiService demo.Server := {|
  AppSetCertIssuer app data s := (None, s);
  AppUnsetCertIssuer app cname s := (None, s);
  AppGetCertificates app s := ({| tsuru.Routers := ∅ |}, Some "Internal Server Error", s)
|}.

Definition unreadableProvider : tsuruProvider demo.Server :=
  {| TsuruClient := {| AppApi := unreadable |} |}.

(** The created binding after a read of [demo.world]. *)
Definition refreshed : schema.ResourceData :=
  {| schema.id := "myapp::www.example.com::letsencrypt";
     schema.app := "myapp";
     schema.cname := "www.example.com";
     schema.issuer := "letsencrypt";
     schema.router := ["envoy"; "nginx"];
     schema.certificate := ["PEM-nginx"];
     schema.ready := true |}.

(** The created binding with attributes that another run left behind. *)
Definition stale : schema.ResourceData :=
  {| schema.id := "myapp::www.example.com::letsencrypt";
     schema.app := "otherapp";
     schema.cname := "other.example.com";
     schema.issuer := "digicert";
     schema.router := ["traefik"];
     schema.certificate := ["PEM-old"; "PEM-older"];
     schema.ready := false |}.

(** The world after set has assigned the planned binding, and after the
    read that follows. *)
Definition assigned : World demo.Server :=
  snd (callAppSetCertIssuer demo.provider "myapp"
         {| tsuru.CertIssuerSetData.Cname := "www.example.com";
            tsuru.CertIssuerSetData.Issuer := "letsencrypt" |} demo.world).

Definition assignedFetched : World demo.Server :=
  request (CallAppGetCertificates "myapp") (server assigned) assigned.

(** The planned binding after set on [demo.world]: the control plane has
    assigned the issuer on every router and issued no certificate yet. *)
Definition bound : schema.ResourceData :=
  {| schema.id := "myapp::www.example.com::letsencrypt";
     schema.app := "myapp";
     schema.cname := "www.example.com";
     schema.issuer := "letsencrypt";
     schema.router := ["envoy"; "haproxy"; "legacy"; "nginx"];
     schema.certificate := [];
     schema.ready := false |}.

(** The worlds of the control plane whose listings cannot be fetched, after
    an assign or an unassign request and the get-certificates request that
    follows. *)
Definition unreadableAfterSet : World demo.Server :=
  request (CallAppGetCertificates "myapp") (server demo.world)
    (request
       (CallAppSetCertIssuer "myapp"
          {| tsuru.CertIssuerSetData.Cname := "www.example.com";
             tsuru.CertIssuerSetData.Issuer := "letsencrypt" |})
       (server demo.world) demo.world).

Definition unreadableAfterUnset : World demo.Server :=
  request (CallAppGetCertificates "myapp") (server demo.world)
    (request (CallAppUnsetCertIssuer "myapp" "www.example.com")
       (server demo.world) demo.world).

End scenario.

(** * Properties *)

(** ** Examples *)

Example IDtoParts_ok :
  IDtoParts "myapp::www.example.com::letsencrypt" 3
  = (["myapp"; "www.example.com"; "letsencrypt"], None).
Proof. reflexivity. Qed.

Example IDtoParts_short : snd (IDtoParts "myapp::www.example.com" 3) <> None.
Proof. discriminate. Qed.

Example Split_trailing : strings.Split "a::" "::" = ["a"; ""].
Proof. reflexivity. Qed.

Example Split_colons : strings.Split "a::::b::i" "::" = ["a"; ""; "b"; "i"].
Proof. reflexivity. Qed.

Example Strings_example :
  sort.Strings ["r2"; "r10"; "R1"; "r1"] = ["R1"; "r1"; "r10"; "r2"].
Proof. reflexivity. Qed.

(** ** [sort.Strings] *)

Lemma Strings_Sorted (x : list string) : Sorted String.le (sort.Strings x).
Proof. apply (Sorted_merge_sort String.le). Qed.

Lemma Strings_Permutation (x : list string) : sort.Strings x ≡ₚ x.
Proof. apply (merge_sort_Permutation String.le). Qed.

(** The model of [sort.Strings] does not depend on the sorting algorithm:
    a sorted arrangement of [x] is [sort.Strings x]. *)
Lemma Strings_unique (x y : list string) :
  Sorted String.le y → y ≡ₚ x → y = sort.Strings x.
Proof.
  intros Hy Hp. apply (Sorted_unique String.le); [done | apply Strings_Sorted |].
  by rewrite Strings_Permutation.
Qed.

Lemma Strings_Permutation_eq (x y : list string) :
  x ≡ₚ y → sort.Strings x = sort.Strings y.
Proof.
  intros Hp. apply Strings_unique; [apply Strings_Sorted |].
  by rewrite Strings_Permutation.
Qed.

Lemma elem_of_Strings (s : string) (x : list string) :
  s ∈ sort.Strings x ↔ s ∈ x.
Proof. by rewrite Strings_Permutation. Qed.

Lemma Strings_nil_inv (x : list string) : sort.Strings x = [] → x = [].
Proof.
  intros E. apply Permutation_nil_r. rewrite <- E. symmetry. apply Strings_Permutation.
Qed.

(** ** The loop of the read operation *)

Section Loop.

Variables cname issuer : string.

Lemma readLoopBody_served usedRouters usedCertificates routerName router :
  readLoopBody cname issuer (usedRouters, usedCertificates) (routerName, router)
  = (usedRouters ++ routersServing cname issuer [(routerName, router)],
     usedCertificates ++ certificatesIssued cname issuer [(routerName, router)]).
Proof.
  unfold readLoopBody, routersServing, certificatesIssued, servedUnder, issued; simpl.
  destruct (tsuru.Cnames router !! cname) as [c|]; simpl;
    [| by rewrite !app_nil_r].
  destruct (String.eqb_spec (tsuru.Issuer c) issuer) as [Hi|Hi]; simpl;
    (case_decide; [| try done]); try done; simpl; [| by rewrite !app_nil_r].
  destruct (String.eqb_spec (tsuru.Certificate c) "") as [Hc|Hc]; simpl;
    case_decide; try done; simpl; by rewrite ?app_nil_r.
Qed.

(** The loop appends to its two slices the routers serving the CNAME under
    the issuer, and their non-empty certificates, in iteration order. *)
Lemma readLoop_served l usedRouters usedCertificates :
  fold_left (readLoopBody cname issuer) l (usedRouters, usedCertificates)
  = (usedRouters ++ routersServing cname issuer l,
     usedCertificates ++ certificatesIssued cname issuer l).
Proof.
  revert usedRouters usedCertificates.
  induction l as [|[routerName router] l IH]; intros rs cs; cbn [fold_left].
  - by rewrite !app_nil_r.
  - rewrite readLoopBody_served, IH, <- !(assoc_L (++)).
    unfold routersServing, certificatesIssued.
    by rewrite <- !omap_app.
Qed.

End Loop.

(** ** The routers serving a CNAME under an issuer *)

Section Serving.

Variables cname issuer : string.

Lemma servedUnder_Some router c :
  servedUnder cname issuer router = Some c
  ↔ tsuru.Cnames router !! cname = Some c ∧ tsuru.Issuer c = issuer.
Proof.
  unfold servedUnder.
  destruct (tsuru.Cnames router !! cname) as [c'|]; simpl.
  - case_decide as Hi; split.
    + by intros [= ->].
    + by intros [[= ->] _].
    + done.
    + intros [[= ->] ?]. by destruct Hi.
  - split; [done | by intros [? _]].
Qed.

Lemma servedUnder_None router :
  servedUnder cname issuer router = None
  ↔ ∀ c, tsuru.Cnames router !! cname = Some c → tsuru.Issuer c ≠ issuer.
Proof.
  split.
  - intros Hnone c Hc Hi.
    assert (servedUnder cname issuer router = Some c) as Hs
      by (by apply servedUnder_Some).
    by rewrite Hnone in Hs.
  - intros Hno. destruct (servedUnder cname issuer router) as [c|] eqn:E; [|done].
    apply servedUnder_Some in E as [Hc Hi]. by destruct (Hno c Hc).
Qed.

Lemma issued_Some c certificate :
  issued c = Some certificate
  ↔ tsuru.Certificate c = certificate ∧ certificate ≠ "".
Proof.
  unfold issued. case_decide as Hc; split.
  - done.
  - intros [? Hne]. destruct Hne. congruence.
  - by intros [= <-].
  - by intros [-> _].
Qed.

Lemma elem_of_routersServing l name :
  name ∈ routersServing cname issuer l
  ↔ ∃ router c, (name, router) ∈ l ∧ servedUnder cname issuer router = Some c.
Proof.
  unfold routersServing. rewrite list_elem_of_omap. split.
  - intros ([name' router] & Hin & Hf); simpl in Hf.
    destruct (servedUnder cname issuer router) as [c|] eqn:E; simplify_eq/=.
    eauto.
  - intros (router & c & Hin & E). exists (name, router); simpl.
    by rewrite E.
Qed.

Lemma elem_of_certificatesIssued l certificate :
  certificate ∈ certificatesIssued cname issuer l
  ↔ ∃ name router c,
      (name, router) ∈ l ∧ servedUnder cname issuer router = Some c
      ∧ tsuru.Certificate c = certificate ∧ certificate ≠ "".
Proof.
  unfold certificatesIssued. rewrite list_elem_of_omap. split.
  - intros ([name router] & Hin & Hf); simpl in Hf.
    destruct (servedUnder cname issuer router) as [c|] eqn:E; simplify_eq/=.
    apply issued_Some in Hf. by exists name, router, c.
  - intros (name & router & c & Hin & E & Hc). exists (name, router); simpl.
    rewrite E; simpl. split; [done | by apply issued_Some].
Qed.

Lemma routersServing_sublist l : routersServing cname issuer l `sublist_of` l.*1.
Proof.
  induction l as [|[name router] l IH]; simpl; [done|].
  unfold routersServing in *. simpl.
  destruct (servedUnder cname issuer router); simpl; by constructor.
Qed.

(** With no router serving the CNAME under the issuer, the loop finds
    nothing. *)
Lemma routersServing_nil l :
  (∀ name router, (name, router) ∈ l → servedUnder cname issuer router = None) →
  routersServing cname issuer l = [] ∧ certificatesIssued cname issuer l = [].
Proof.
  intros Hno. split.
  - destruct (routersServing cname issuer l) as [|name rs] eqn:E; [done|].
    assert (name ∈ routersServing cname issuer l) as Hin by (rewrite E; left).
    apply elem_of_routersServing in Hin as (router & c & Hin & Hs).
    by rewrite (Hno _ _ Hin) in Hs.
  - destruct (certificatesIssued cname issuer l) as [|cert cs] eqn:E; [done|].
    assert (cert ∈ certificatesIssued cname issuer l) as Hin by (rewrite E; left).
    apply elem_of_certificatesIssued in Hin as (name & router & c & Hin & Hs & _).
    by rewrite (Hno _ _ Hin) in Hs.
Qed.

(** The certificates found are those of the routers found, looked up by
    name in the listing the iteration enumerates. *)
Lemma certificatesIssued_routersServing certificates l :
  (∀ name router, (name, router) ∈ l →
                  tsuru.Routers certificates !! name = Some router) →
  certificatesIssued cname issuer l
  = omap (certificateOf certificates cname) (routersServing cname issuer l).
Proof.
  unfold certificatesIssued, routersServing.
  induction l as [|[name router] l IH]; intros Hl; csimpl; [done|].
  rewrite IH by (intros; apply Hl; by right).
  destruct (servedUnder cname issuer router) as [c|] eqn:E; csimpl; [|done].
  assert (certificateOf certificates cname name = issued c) as ->; [|done].
  unfold certificateOf. rewrite (Hl name router) by left. csimpl.
  by apply servedUnder_Some in E as [-> _].
Qed.

End Serving.

(** ** The identifier parser *)

Lemma IDtoParts_cases (input : string) (n : nat) :
  (List.length (strings.Split input ID_SEPARATOR) = n
   ∧ IDtoParts input n = (strings.Split input ID_SEPARATOR, None))
  ∨ (List.length (strings.Split input ID_SEPARATOR) ≠ n
     ∧ ∃ err, IDtoParts input n = ([], Some err)).
Proof.
  unfold IDtoParts.
  destruct (Nat.eqb_spec (List.length (strings.Split input ID_SEPARATOR)) n);
    [left | right]; eauto.
Qed.

(** A successful parse for three parts gives three parts. *)
Lemma IDtoParts_three (input : string) (parts : list string) :
  IDtoParts input 3 = (parts, None) →
  ∃ app cname issuer, parts = [app; cname; issuer].
Proof.
  destruct (IDtoParts_cases input 3) as [[Hlen ->]|[_ [err ->]]]; [|done].
  intros [= <-].
  destruct (strings.Split input ID_SEPARATOR) as [|a [|b [|c [|? ?]]]]; try done.
  eauto.
Qed.

(** ** The handlers, path by path *)

Section Handlers.

Context {Server : Type}.
Variable rangeRouters :
  gmap string tsuru.AppCertificatesRouter → list (string * tsuru.AppCertificatesRouter).
Variable meta : tsuruProvider Server.

Local Abbreviation Read := (resourceTsuruCertificateIssuerRead rangeRouters).
Local Abbreviation Set_ := (resourceTsuruCertificateIssuerSet rangeRouters).
Local Abbreviation Unset := (resourceTsuruCertificateIssuerUnset rangeRouters).

(** The three requests append themselves to the log. *)
Lemma callAppGetCertificates_calls app (w w' : World Server) certificates err :
  callAppGetCertificates meta app w = (certificates, err, w') →
  calls w' = calls w ++ [CallAppGetCertificates app].
Proof.
  unfold callAppGetCertificates.
  destruct (AppGetCertificates _ _ _) as [[? ?] ?]. by intros [= _ _ <-].
Qed.

Lemma callAppSetCertIssuer_calls app data (w w' : World Server) err :
  callAppSetCertIssuer meta app data w = (err, w') →
  calls w' = calls w ++ [CallAppSetCertIssuer app data].
Proof.
  unfold callAppSetCertIssuer.
  destruct (AppSetCertIssuer _ _ _ _) as [? ?]. by intros [= _ <-].
Qed.

Lemma callAppUnsetCertIssuer_calls app cname (w w' : World Server) err :
  callAppUnsetCertIssuer meta app cname w = (err, w') →
  calls w' = calls w ++ [CallAppUnsetCertIssuer app cname].
Proof.
  unfold callAppUnsetCertIssuer.
  destruct (AppUnsetCertIssuer _ _ _ _) as [? ?]. by intros [= _ <-].
Qed.

(** Read, when the identifier does not parse. *)
Lemma Read_parse_error d (w : World Server) parts err :
  IDtoParts (schema.Id d) 3 = (parts, Some err) →
  Read d meta w = Returned (diag.FromErr err, d, w).
Proof. intros E. unfold resourceTsuruCertificateIssuerRead. by rewrite E. Qed.

(** Read, when the listing cannot be fetched. *)
Lemma Read_fetch_error d (w w' : World Server) app cname issuer certificates err :
  IDtoParts (schema.Id d) 3 = ([app; cname; issuer], None) →
  callAppGetCertificates meta app w = (certificates, Some err, w') →
  Read d meta w = Returned (diag.FromErr err, d, w').
Proof.
  intros E G. unfold resourceTsuruCertificateIssuerRead. rewrite E; simpl.
  by rewrite G.
Qed.

(** Read, when it succeeds. *)
Lemma Read_success d (w w' : World Server) app cname issuer certificates :
  IDtoParts (schema.Id d) 3 = ([app; cname; issuer], None) →
  callAppGetCertificates meta app w = (certificates, None, w') →
  let l := rangeRouters (tsuru.Routers certificates) in
  Read d meta w =
    Returned
      ([],
       {| schema.id := schema.id d;
          schema.app := app;
          schema.cname := cname;
          schema.issuer := issuer;
          schema.router := sort.Strings (routersServing cname issuer l);
          schema.certificate := sort.Strings (certificatesIssued cname issuer l);
          schema.ready :=
            (0 <? List.length (sort.Strings (certificatesIssued cname issuer l)))%nat |},
       w').
Proof.
  intros E G l. unfold resourceTsuruCertificateIssuerRead. rewrite E; simpl.
  rewrite G. fold l. by rewrite readLoop_served.
Qed.

(** Read returns, whatever the identifier and the control plane. *)
Lemma Read_returns d (w : World Server) :
  ∃ diags d' w', Read d meta w = Returned (diags, d', w').
Proof.
  destruct (IDtoParts (schema.Id d) 3) as [parts [err|]] eqn:E.
  - erewrite Read_parse_error by done. eauto.
  - destruct (IDtoParts_three _ _ E) as (app & cname & issuer & ->).
    destruct (callAppGetCertificates meta app w) as [[certificates [err|]] w'] eqn:G.
    + erewrite Read_fetch_error by done. eauto.
    + erewrite Read_success by done. eauto.
Qed.

End Handlers.

(** ** The read operation *)

Section ReadProperties.

Context {Server : Type}.
Variable rangeRouters :
  gmap string tsuru.AppCertificatesRouter → list (string * tsuru.AppCertificatesRouter).
Variable meta : tsuruProvider Server.

Local Abbreviation Read := (resourceTsuruCertificateIssuerRead rangeRouters).
Local Abbreviation Unset := (resourceTsuruCertificateIssuerUnset rangeRouters).

(** [range] visits every entry of the map once. *)
Hypothesis rangeRouters_enumerates : ∀ m, rangeRouters m ≡ₚ map_to_list m.

Lemma elem_of_rangeRouters m name router :
  (name, router) ∈ rangeRouters m ↔ m !! name = Some router.
Proof. by rewrite rangeRouters_enumerates, elem_of_map_to_list. Qed.

Lemma NoDup_rangeRouters m : NoDup (rangeRouters m).*1.
Proof. rewrite rangeRouters_enumerates. apply NoDup_fst_map_to_list. Qed.

(** C1. When the identifier parses to [app], [cname] and [issuer] and the
    listing of [app] is fetched, read writes a router list that holds a
    router name if and only if the listing has that router, its CNAME table
    has [cname] and that entry's issuer is [issuer] (each name once); and
    the certificate list it writes is, up to order, the list of the
    non-empty certificates that the routers of the router list report
    for [cname]. *)
Theorem read_collects_serving_routers
    d (w w' : World Server) app cname issuer certificates :
  IDtoParts (schema.Id d) 3 = ([app; cname; issuer], None) →
  callAppGetCertificates meta app w = (certificates, None, w') →
  ∃ d', Read d meta w = Returned ([], d', w')
    ∧ NoDup (schema.router d')
    ∧ (∀ name, name ∈ schema.router d'
         ↔ ∃ router c, tsuru.Routers certificates !! name = Some router
                       ∧ tsuru.Cnames router !! cname = Some c
                       ∧ tsuru.Issuer c = issuer)
    ∧ schema.certificate d'
        ≡ₚ omap (certificateOf certificates cname) (schema.router d').
Proof.
  intros E G. eexists. split; [by apply Read_success|]. simpl.
  split; [|split].
  - rewrite Strings_Permutation.
    eapply sublist_NoDup; [apply NoDup_rangeRouters | apply routersServing_sublist].
  - intros name. rewrite elem_of_Strings, elem_of_routersServing.
    setoid_rewrite elem_of_rangeRouters. setoid_rewrite servedUnder_Some.
    split; intros (router & c & ?); exists router, c; tauto.
  - rewrite !Strings_Permutation.
    erewrite (certificatesIssued_routersServing cname issuer certificates); [done|].
    intros name router. apply elem_of_rangeRouters.
Qed.

(** C3. Under the same conditions, read sets [ready] to [true] if and only
    if some router of the listing reports, for [cname] under [issuer], a
    non-empty certificate; that is, if and only if the certificate list it
    writes is not empty. *)
Theorem read_ready_iff_certificate
    d (w w' : World Server) app cname issuer certificates :
  IDtoParts (schema.Id d) 3 = ([app; cname; issuer], None) →
  callAppGetCertificates meta app w = (certificates, None, w') →
  ∃ d', Read d meta w = Returned ([], d', w')
    ∧ (schema.ready d' = true
         ↔ ∃ name router c, tsuru.Routers certificates !! name = Some router
                            ∧ tsuru.Cnames router !! cname = Some c
                            ∧ tsuru.Issuer c = issuer
                            ∧ tsuru.Certificate c ≠ "")
    ∧ (schema.ready d' = true ↔ schema.certificate d' ≠ []).
Proof.
  intros E G. eexists. split; [by apply Read_success|]. simpl.
  set (l := rangeRouters (tsuru.Routers certificates)).
  assert (∀ name router, (name, router) ∈ l
            ↔ tsuru.Routers certificates !! name = Some router) as Hl.
  { intros. apply elem_of_rangeRouters. }
  clearbody l.
  assert (∀ x : list string, (0 <? List.length x)%nat = true ↔ x ≠ []) as Hlen.
  { intros [|? ?]; simpl; split; intros; try done. }
  split; [|apply Hlen].
  rewrite Hlen. split.
  - intros Hne.
    destruct (sort.Strings (certificatesIssued cname issuer l))
      as [|certificate cs] eqn:Es; [done|].
    assert (certificate ∈ certificatesIssued cname issuer l) as Hin.
    { apply elem_of_Strings. rewrite Es. left. }
    apply elem_of_certificatesIssued in Hin
      as (name & router & c & Hin & Hs & Hc & Hne').
    apply Hl in Hin. apply servedUnder_Some in Hs as [? ?].
    exists name, router, c. by rewrite Hc.
  - intros (name & router & c & Hr & Hc & Hi & Hne) Hnil.
    apply Strings_nil_inv in Hnil.
    assert (tsuru.Certificate c ∈ certificatesIssued cname issuer l) as Hin.
    { apply elem_of_certificatesIssued. exists name, router, c.
      by rewrite Hl, servedUnder_Some. }
    rewrite Hnil in Hin. by apply not_elem_of_nil in Hin.
Qed.

End ReadProperties.

(** ** Identifiers: composing and parsing *)

Lemma append_assoc (s t u : string) : (s +:+ t) +:+ u = s +:+ (t +:+ u).
Proof.
  induction s as [|c s IH]; [done|].
  change (String c ((s +:+ t) +:+ u) = String c (s +:+ (t +:+ u))).
  by rewrite IH.
Qed.

Lemma prefix_empty (s : string) : String.prefix "" s = true.
Proof. by destruct s. Qed.

Lemma prefix_separator (rest : string) :
  String.prefix ID_SEPARATOR (String ":" (String ":" rest)) = true.
Proof.
  unfold ID_SEPARATOR. cbn [String.prefix].
  destruct (ascii_dec ":" ":"); [|done]. apply prefix_empty.
Qed.

(** Whether the delimiter starts at the first byte of a field depends on
    that byte and the next one only. *)
Lemma prefix_separator_field (c : ascii) (p rest : string) :
  String.prefix ID_SEPARATOR (String c (p +:+ (ID_SEPARATOR +:+ rest)))
  = String.prefix ID_SEPARATOR (String c (p +:+ ":")).
Proof.
  unfold ID_SEPARATOR. destruct p as [|c' p].
  - change (String.prefix "::" (String c (String ":" (String ":" rest)))
            = String.prefix "::" (String c ":")).
    cbn [String.prefix]. by destruct (ascii_dec ":" c).
  - change (String.prefix "::" (String c (String c' (p +:+ ("::" +:+ rest))))
            = String.prefix "::" (String c (String c' (p +:+ ":")))).
    cbn [String.prefix]. destruct (ascii_dec ":" c); [|done].
    destruct (ascii_dec ":" c'); [|done].
    by rewrite !prefix_empty.
Qed.

(** Splitting past a valid field of an identifier and its delimiter. *)
Lemma splitFrom_field (p rest : string) :
  strings.Contains (p +:+ ":") ID_SEPARATOR = false →
  strings.splitFrom ID_SEPARATOR 0 (p +:+ (ID_SEPARATOR +:+ rest))
  = p :: strings.splitFrom ID_SEPARATOR 0 rest.
Proof.
  induction p as [|c p IH]; intros Hp.
  { change ("" +:+ (ID_SEPARATOR +:+ rest)) with (String ":" (String ":" rest)).
    cbn [strings.splitFrom]. by rewrite prefix_separator. }
  change (String c p +:+ ":") with (String c (p +:+ ":")) in Hp.
  cbn [strings.Contains] in Hp. apply orb_false_iff in Hp as [Hpre Hp].
  change (String c p +:+ (ID_SEPARATOR +:+ rest))
    with (String c (p +:+ (ID_SEPARATOR +:+ rest))).
  cbn [strings.splitFrom].
  by rewrite prefix_separator_field, Hpre, IH.
Qed.

(** Splitting a valid last field. *)
Lemma splitFrom_last (p : string) :
  strings.Contains p ID_SEPARATOR = false →
  strings.splitFrom ID_SEPARATOR 0 p = [p].
Proof.
  induction p as [|c p IH]; intros Hp; [done|].
  cbn [strings.Contains] in Hp. apply orb_false_iff in Hp as [Hpre Hp].
  cbn [strings.splitFrom]. by rewrite Hpre, IH.
Qed.

Lemma Split_composed (app cname issuer : string) :
  validField app = true → validField cname = true →
  validLastField issuer = true →
  strings.Split ((((app +:+ "::") +:+ cname) +:+ "::") +:+ issuer) ID_SEPARATOR
  = [app; cname; issuer].
Proof.
  unfold validField, validLastField, strings.Split.
  intros Ha%negb_true_iff Hc%negb_true_iff Hi%negb_true_iff.
  rewrite !append_assoc.
  change "::" with ID_SEPARATOR.
  by rewrite !splitFrom_field, splitFrom_last.
Qed.

(** A field without the byte [":"] is valid in every position. *)
Lemma colon_free_valid (s : string) :
  (∀ i, String.get i s ≠ Some ":"%char) →
  validField s = true ∧ validLastField s = true.
Proof.
  unfold validField, validLastField. rewrite !negb_true_iff.
  induction s as [|c s IH]; intros Hs; [done|].
  assert (c ≠ ":"%char) as Hc by (intros ->; by apply (Hs 0%nat)).
  destruct IH as [IH1 IH2]; [intros i; apply (Hs (S i))|].
  change (String c s +:+ ":") with (String c (s +:+ ":")).
  cbn [strings.Contains]. rewrite IH1, IH2, !orb_false_r.
  unfold ID_SEPARATOR. cbn [String.prefix].
  by destruct (ascii_dec ":" c).
Qed.

(** C2. For fields [app] and [cname] inside which no delimiter starts (also
    when the delimiter follows them) and a field [issuer] without
    delimiter, the identifier that set composes, parsed the way read and
    unset parse it, gives back [app], [cname] and [issuer]. *)
Theorem id_roundtrip (app cname issuer : string) :
  validField app = true → validField cname = true →
  validLastField issuer = true →
  IDtoParts ((((app +:+ "::") +:+ cname) +:+ "::") +:+ issuer) 3
  = ([app; cname; issuer], None).
Proof.
  intros Ha Hc Hi. unfold IDtoParts. by rewrite Split_composed.
Qed.

Lemma id_roundtrip_witness :
  IDtoParts (((("myapp" +:+ "::") +:+ ":www.example.com") +:+ "::") +:+ "lets:encrypt:") 3
  = (["myapp"; ":www.example.com"; "lets:encrypt:"], None).
Proof. apply id_roundtrip; reflexivity. Defined.

(** ** Failures, and the requests of set and unset *)

Section HandlerProperties.

Context {Server : Type}.
Variable rangeRouters :
  gmap string tsuru.AppCertificatesRouter → list (string * tsuru.AppCertificatesRouter).
Variable meta : tsuruProvider Server.

Local Abbreviation Read := (resourceTsuruCertificateIssuerRead rangeRouters).
Local Abbreviation Set_ := (resourceTsuruCertificateIssuerSet rangeRouters).
Local Abbreviation Unset := (resourceTsuruCertificateIssuerUnset rangeRouters).

(** Unset, once the identifier is parsed. *)
Lemma Unset_parsed d (w : World Server) app cname issuer :
  IDtoParts (schema.Id d) 3 = ([app; cname; issuer], None) →
  Unset d meta w =
    match callAppUnsetCertIssuer meta app cname w with
    | (Some err, w') =>
        Returned (diag.Errorf "unable to unset certificate issuer: " err, d, w')
    | (None, w') => Read d meta w'
    end.
Proof.
  intros E. unfold resourceTsuruCertificateIssuerUnset. rewrite E; simpl.
  by destruct (callAppUnsetCertIssuer meta app cname w) as [[err|] w'].
Qed.

(** The log only grows during a read. *)
Lemma Read_requests d (w : World Server) :
  ∃ new, requests (Read d meta w) = calls w ++ new.
Proof.
  destruct (IDtoParts (schema.Id d) 3) as [parts [err|]] eqn:E.
  - erewrite Read_parse_error by done. exists []. by rewrite app_nil_r.
  - destruct (IDtoParts_three _ _ E) as (app & cname & issuer & ->).
    destruct (callAppGetCertificates meta app w) as [[certificates err] w'] eqn:G.
    exists [CallAppGetCertificates app].
    rewrite <- (callAppGetCertificates_calls _ _ _ _ _ _ G).
    destruct err as [err|].
    + by erewrite Read_fetch_error.
    + by erewrite Read_success.
Qed.

(** C5. Set sends the assign-certificate-issuer request for the [app],
    [cname] and [issuer] of the resource data. When the request fails with
    [err], set returns the error diagnostic of [err] and leaves the
    resource data, identifier included, as it was. When it succeeds, set
    stores the identifier [app::cname::issuer] and goes on as read. *)
Theorem set_assigns_then_reads d (w : World Server) :
  let app := schema.app d in
  let cname := schema.cname d in
  let issuer := schema.issuer d in
  let data := {| tsuru.CertIssuerSetData.Cname := cname;
                 tsuru.CertIssuerSetData.Issuer := issuer |} in
  ∃ err w',
    callAppSetCertIssuer meta app data w = (err, w')
    ∧ calls w' = calls w ++ [CallAppSetCertIssuer app data]
    ∧ Set_ d meta w =
        match err with
        | Some err =>
            Returned
              ([{| diag.Severity_ := diag.Error;
                   diag.Summary := "unable to set certificate issuer: " +:+ err |}],
               d, w')
        | None =>
            Read (schema.SetId (app +:+ "::" +:+ cname +:+ "::" +:+ issuer) d) meta w'
        end.
Proof.
  intros app cname issuer data.
  destruct (callAppSetCertIssuer meta app data w) as [err w'] eqn:C.
  exists err, w'. split; [done|]. split.
  { by eapply callAppSetCertIssuer_calls. }
  unfold resourceTsuruCertificateIssuerSet. fold app cname issuer data.
  rewrite C. destruct err as [err|]; [done|].
  by rewrite !append_assoc.
Qed.

(** C6. For an identifier that parses to [app], [cname] and [issuer], as
    the stored ones do, unset sends the unassign-certificate-issuer request
    for [cname] on [app]. When the request fails with [err], unset returns
    the error diagnostic of [err]; otherwise it goes on as read. *)
Theorem unset_unassigns_then_reads d (w : World Server) app cname issuer :
  IDtoParts (schema.Id d) 3 = ([app; cname; issuer], None) →
  ∃ err w',
    callAppUnsetCertIssuer meta app cname w = (err, w')
    ∧ calls w' = calls w ++ [CallAppUnsetCertIssuer app cname]
    ∧ Unset d meta w =
        match err with
        | Some err =>
            Returned
              ([{| diag.Severity_ := diag.Error;
                   diag.Summary := "unable to unset certificate issuer: " +:+ err |}],
               d, w')
        | None => Read d meta w'
        end.
Proof.
  intros E.
  destruct (callAppUnsetCertIssuer meta app cname w) as [err w'] eqn:C.
  exists err, w'. split; [done|]. split.
  { by eapply callAppUnsetCertIssuer_calls. }
  rewrite (Unset_parsed _ _ _ _ _ E), C. by destruct err.
Qed.

(** C7. For an identifier that does not split into exactly three parts,
    read and unset return an error diagnostic and leave the resource data
    and the world as they were: the control plane receives no request. *)
Theorem malformed_id_is_an_error d (w : World Server) :
  List.length (strings.Split (schema.Id d) ID_SEPARATOR) ≠ 3%nat →
  ∃ diags,
    diag.HasError diags = true
    ∧ Read d meta w = Returned (diags, d, w)
    ∧ Unset d meta w = Returned (diags, d, w)
    ∧ requests (Read d meta w) = calls w
    ∧ requests (Unset d meta w) = calls w.
Proof.
  intros Hlen.
  destruct (IDtoParts_cases (schema.Id d) 3) as [[? _]|[_ [err E]]]; [done|].
  assert (Read d meta w = Returned (diag.FromErr err, d, w)) as HR.
  { by eapply Read_parse_error. }
  assert (Unset d meta w = Returned (diag.FromErr err, d, w)) as HU.
  { unfold resourceTsuruCertificateIssuerUnset. by rewrite E. }
  exists (diag.FromErr err). by rewrite HR, HU.
Qed.

(** C9. The requests of unset depend on the [app] and [cname] parts of the
    identifier only: for two identifiers that parse to the same [app] and
    [cname], whatever their issuers and the rest of the resource data,
    unset sends the same requests from the same world, the first of them
    the unassign-certificate-issuer request for [cname] on [app]. *)
Theorem unset_requests_ignore_issuer
    d1 d2 (w : World Server) app cname issuer1 issuer2 :
  IDtoParts (schema.Id d1) 3 = ([app; cname; issuer1], None) →
  IDtoParts (schema.Id d2) 3 = ([app; cname; issuer2], None) →
  requests (Unset d1 meta w) = requests (Unset d2 meta w)
  ∧ ∃ rest, requests (Unset d1 meta w)
            = calls w ++ CallAppUnsetCertIssuer app cname :: rest.
Proof.
  intros E1 E2.
  rewrite (Unset_parsed _ _ _ _ _ E1), (Unset_parsed _ _ _ _ _ E2).
  destruct (callAppUnsetCertIssuer meta app cname w) as [err w'] eqn:C.
  pose proof (callAppUnsetCertIssuer_calls _ _ _ _ _ _ C) as Hc.
  destruct err as [err|]; simpl.
  { split; [done|]. exists []. done. }
  destruct (callAppGetCertificates meta app w') as [[certificates err] w''] eqn:G.
  pose proof (callAppGetCertificates_calls _ _ _ _ _ _ G) as Hg.
  assert (∀ d issuer, IDtoParts (schema.Id d) 3 = ([app; cname; issuer], None) →
            requests (Read d meta w') = calls w'') as HR.
  { intros d issuer E. destruct err as [err|].
    - by erewrite Read_fetch_error.
    - by erewrite Read_success. }
  rewrite (HR _ _ E1), (HR _ _ E2). split; [done|].
  exists [CallAppGetCertificates app]. by rewrite Hg, Hc, <- (assoc_L (++)).
Qed.

(** C10. When read returns an error diagnostic, the resource data is as
    before: none of [app], [cname], [issuer], [router], [certificate] and
    [ready] is written. Read returns one when the identifier does not
    parse and when the listing cannot be fetched. *)
Theorem read_error_writes_nothing d (w : World Server) diags d' w' :
  Read d meta w = Returned (diags, d', w') →
  diag.HasError diags = true →
  d' = d
  ∧ ((∃ parts err, IDtoParts (schema.Id d) 3 = (parts, Some err))
     ∨ (∃ app cname issuer certificates err,
          IDtoParts (schema.Id d) 3 = ([app; cname; issuer], None)
          ∧ callAppGetCertificates meta app w = (certificates, Some err, w'))).
Proof.
  intros HR Herr.
  destruct (IDtoParts (schema.Id d) 3) as [parts [err|]] eqn:E.
  - erewrite Read_parse_error in HR by done. simplify_eq. eauto.
  - destruct (IDtoParts_three _ _ E) as (app & cname & issuer & ->).
    destruct (callAppGetCertificates meta app w) as [[certificates [err|]] w''] eqn:G.
    + erewrite Read_fetch_error in HR by done. simplify_eq.
      split; [done|]. right. by exists app, cname, issuer, certificates, err.
    + erewrite Read_success in HR by done. by simplify_eq.
Qed.

End HandlerProperties.

(** ** Reads that find no router, and the order of the iteration *)

Section Unbound.

Context {Server : Type}.
Variable rangeRouters :
  gmap string tsuru.AppCertificatesRouter → list (string * tsuru.AppCertificatesRouter).
Variable meta : tsuruProvider Server.

Local Abbreviation Read := (resourceTsuruCertificateIssuerRead rangeRouters).
Local Abbreviation Unset := (resourceTsuruCertificateIssuerUnset rangeRouters).

Hypothesis rangeRouters_enumerates : ∀ m, rangeRouters m ≡ₚ map_to_list m.

(** C8. When the listing that read fetches has no router whose CNAME table
    maps [cname] to [issuer], read writes an empty router list, an empty
    certificate list and [ready = false]. So does the read that ends unset,
    when the listing fetched after the unassign request is such a
    listing. *)
Theorem read_without_serving_router
    d (w w' : World Server) app cname issuer certificates :
  IDtoParts (schema.Id d) 3 = ([app; cname; issuer], None) →
  callAppGetCertificates meta app w = (certificates, None, w') →
  (∀ name router c, tsuru.Routers certificates !! name = Some router →
                    tsuru.Cnames router !! cname = Some c →
                    tsuru.Issuer c ≠ issuer) →
  ∃ d', schema.router d' = [] ∧ schema.certificate d' = []
        ∧ schema.ready d' = false
        ∧ Read d meta w = Returned ([], d', w')
        ∧ ∀ w0, callAppUnsetCertIssuer meta app cname w0 = (None, w) →
                Unset d meta w0 = Returned ([], d', w').
Proof.
  intros E G Hno.
  destruct (routersServing_nil cname issuer
              (rangeRouters (tsuru.Routers certificates))) as [Hr Hc].
  { intros name router Hin. apply servedUnder_None. intros c.
    apply (Hno name). by apply (elem_of_rangeRouters rangeRouters). }
  pose proof (Read_success rangeRouters meta _ _ _ _ _ _ _ E G) as HR.
  simpl in HR. rewrite Hr, Hc in HR.
  eexists. split_and!; [..|apply HR|]; [done..|].
  intros w0 C. by rewrite (Unset_parsed _ _ _ _ _ _ _ E), C.
Qed.

End Unbound.

(** C4. The router list and the certificate list that a successful read
    writes are sorted in increasing lexicographic (byte-wise) order; and
    read gives the same result, resource data included, for any two orders
    in which [range] may visit the routers of the listing. *)
Theorem read_sorted_whatever_the_order
    {Server : Type} (range1 range2 :
       gmap string tsuru.AppCertificatesRouter
       → list (string * tsuru.AppCertificatesRouter))
    (meta : tsuruProvider Server) d (w : World Server) :
  (∀ m, range1 m ≡ₚ map_to_list m) →
  (∀ m, range2 m ≡ₚ map_to_list m) →
  resourceTsuruCertificateIssuerRead range1 d meta w
  = resourceTsuruCertificateIssuerRead range2 d meta w
  ∧ ∀ d' w', resourceTsuruCertificateIssuerRead range1 d meta w
             = Returned ([], d', w') →
             Sorted String.le (schema.router d')
             ∧ Sorted String.le (schema.certificate d').
Proof.
  intros H1 H2.
  destruct (IDtoParts (schema.Id d) 3) as [parts [err|]] eqn:E.
  { rewrite !(Read_parse_error _ _ _ _ _ _ E). split; [done|]. by intros. }
  destruct (IDtoParts_three _ _ E) as (app & cname & issuer & ->).
  destruct (callAppGetCertificates meta app w) as [[certificates [err|]] w1] eqn:G.
  { rewrite !(Read_fetch_error _ _ _ _ _ _ _ _ _ _ E G). split; [done|]. by intros. }
  rewrite !(Read_success _ _ _ _ _ _ _ _ _ E G). simpl. split.
  - assert (range1 (tsuru.Routers certificates)
            ≡ₚ range2 (tsuru.Routers certificates)) as Hp by (by rewrite H1, H2).
    assert (routersServing cname issuer (range1 (tsuru.Routers certificates))
            ≡ₚ routersServing cname issuer (range2 (tsuru.Routers certificates)))
      as Hr by (unfold routersServing; by rewrite Hp).
    assert (certificatesIssued cname issuer (range1 (tsuru.Routers certificates))
            ≡ₚ certificatesIssued cname issuer (range2 (tsuru.Routers certificates)))
      as Hc by (unfold certificatesIssued; by rewrite Hp).
    by rewrite (Strings_Permutation_eq _ _ Hr), (Strings_Permutation_eq _ _ Hc).
  - intros d' w' [= <- _]. simpl. split; apply Strings_Sorted.
Qed.

(** ** The theorems at work on the small control plane *)

Lemma ascending_enumerates m : demo.ascending m ≡ₚ map_to_list m.
Proof. reflexivity. Qed.

Lemma descending_enumerates m : demo.descending m ≡ₚ map_to_list m.
Proof. apply reverse_Permutation. Qed.

(** A check that no router of a listing serves a CNAME under an issuer. *)
Lemma no_serving_router_check certificates cname issuer :
  routersServing cname issuer (map_to_list (tsuru.Routers certificates)) = [] →
  ∀ name router c, tsuru.Routers certificates !! name = Some router →
                   tsuru.Cnames router !! cname = Some c →
                   tsuru.Issuer c ≠ issuer.
Proof.
  intros Hnil name router c Hr Hc Hi.
  assert (name ∈ routersServing cname issuer
                   (map_to_list (tsuru.Routers certificates))) as Hin.
  { apply elem_of_routersServing. exists router, c.
    by rewrite elem_of_map_to_list, servedUnder_Some. }
  rewrite Hnil in Hin. by apply not_elem_of_nil in Hin.
Qed.

Lemma read_collects_serving_routers_witness :
  ∃ d', resourceTsuruCertificateIssuerRead demo.descending
          demo.created demo.provider demo.world
        = Returned ([], d', demo.fetched)
    ∧ NoDup (schema.router d')
    ∧ (∀ name, name ∈ schema.router d'
         ↔ ∃ router c, tsuru.Routers demo.listing !! name = Some router
                       ∧ tsuru.Cnames router !! "www.example.com" = Some c
                       ∧ tsuru.Issuer c = "letsencrypt")
    ∧ schema.certificate d'
        ≡ₚ omap (certificateOf demo.listing "www.example.com") (schema.router d').
Proof.
  apply (read_collects_serving_routers demo.descending demo.provider
           descending_enumerates demo.created demo.world demo.fetched
           "myapp" "www.example.com" "letsencrypt" demo.listing);
    reflexivity.
Defined.

Lemma read_ready_iff_certificate_witness :
  ∃ d', resourceTsuruCertificateIssuerRead demo.ascending
          demo.created demo.provider demo.world
        = Returned ([], d', demo.fetched)
    ∧ (schema.ready d' = true
         ↔ ∃ name router c, tsuru.Routers demo.listing !! name = Some router
                            ∧ tsuru.Cnames router !! "www.example.com" = Some c
                            ∧ tsuru.Issuer c = "letsencrypt"
                            ∧ tsuru.Certificate c ≠ "")
    ∧ (schema.ready d' = true ↔ schema.certificate d' ≠ []).
Proof.
  apply (read_ready_iff_certificate demo.ascending demo.provider
           ascending_enumerates demo.created demo.world demo.fetched
           "myapp" "www.example.com" "letsencrypt" demo.listing);
    reflexivity.
Defined.

Lemma read_sorted_whatever_the_order_witness :
  resourceTsuruCertificateIssuerRead demo.ascending
    demo.created demo.provider demo.world
  = resourceTsuruCertificateIssuerRead demo.descending
      demo.created demo.provider demo.world
  ∧ ∀ d' w', resourceTsuruCertificateIssuerRead demo.ascending
               demo.created demo.provider demo.world
             = Returned ([], d', w') →
             Sorted String.le (schema.router d')
             ∧ Sorted String.le (schema.certificate d').
Proof.
  apply (read_sorted_whatever_the_order demo.ascending demo.descending
           demo.provider demo.created demo.world
           ascending_enumerates descending_enumerates).
Defined.

Lemma unset_unassigns_then_reads_witness :
  ∃ err w',
    callAppUnsetCertIssuer demo.provider "myapp" "www.example.com" demo.world
    = (err, w')
    ∧ calls w'
      = calls demo.world ++ [CallAppUnsetCertIssuer "myapp" "www.example.com"]
    ∧ resourceTsuruCertificateIssuerUnset demo.ascending
        demo.created demo.provider demo.world =
        match err with
        | Some err =>
            Returned
              ([{| diag.Severity_ := diag.Error;
                   diag.Summary := "unable to unset certificate issuer: " +:+ err |}],
               demo.created, w')
        | None =>
            resourceTsuruCertificateIssuerRead demo.ascending
              demo.created demo.provider w'
        end.
Proof.
  apply (unset_unassigns_then_reads demo.ascending demo.provider
           demo.created demo.world "myapp" "www.example.com" "letsencrypt").
  reflexivity.
Defined.

Lemma malformed_id_is_an_error_witness :
  ∃ diags,
    diag.HasError diags = true
    ∧ resourceTsuruCertificateIssuerRead demo.ascending
        demo.planned demo.provider demo.world
      = Returned (diags, demo.planned, demo.world)
    ∧ resourceTsuruCertificateIssuerUnset demo.ascending
        demo.planned demo.provider demo.world
      = Returned (diags, demo.planned, demo.world)
    ∧ requests (resourceTsuruCertificateIssuerRead demo.ascending
                  demo.planned demo.provider demo.world)
      = calls demo.world
    ∧ requests (resourceTsuruCertificateIssuerUnset demo.ascending
                  demo.planned demo.provider demo.world)
      = calls demo.world.
Proof.
  apply (malformed_id_is_an_error demo.ascending demo.provider
           demo.planned demo.world).
  vm_compute. discriminate.
Defined.

Lemma read_without_serving_router_witness :
  ∃ d', schema.router d' = [] ∧ schema.certificate d' = []
        ∧ schema.ready d' = false
        ∧ resourceTsuruCertificateIssuerRead demo.descending
            demo.unserved demo.provider demo.world
          = Returned ([], d', demo.fetched)
        ∧ ∀ w0, callAppUnsetCertIssuer demo.provider
                  "myapp" "www.example.com" w0 = (None, demo.world) →
                resourceTsuruCertificateIssuerUnset demo.descending
                  demo.unserved demo.provider w0
                = Returned ([], d', demo.fetched).
Proof.
  apply (read_without_serving_router demo.descending demo.provider
           descending_enumerates demo.unserved demo.world demo.fetched
           "myapp" "www.example.com" "zerossl" demo.listing);
    [reflexivity | reflexivity |].
  apply no_serving_router_check. reflexivity.
Defined.

Lemma unset_requests_ignore_issuer_witness :
  requests (resourceTsuruCertificateIssuerUnset demo.ascending
              demo.created demo.provider demo.world)
  = requests (resourceTsuruCertificateIssuerUnset demo.ascending
                demo.unserved demo.provider demo.world)
  ∧ ∃ rest,
      requests (resourceTsuruCertificateIssuerUnset demo.ascending
                  demo.created demo.provider demo.world)
      = calls demo.world
        ++ CallAppUnsetCertIssuer "myapp" "www.example.com" :: rest.
Proof.
  apply (unset_requests_ignore_issuer demo.ascending demo.provider
           demo.created demo.unserved demo.world
           "myapp" "www.example.com" "letsencrypt" "zerossl");
    reflexivity.
Defined.

Lemma read_error_writes_nothing_witness :
  demo.planned = demo.planned
  ∧ ((∃ parts err, IDtoParts (schema.Id demo.planned) 3 = (parts, Some err))
     ∨ (∃ app cname issuer certificates err,
          IDtoParts (schema.Id demo.planned) 3 = ([app; cname; issuer], None)
          ∧ callAppGetCertificates demo.provider app demo.world
            = (certificates, Some err, demo.world))).
Proof.
  apply (read_error_writes_nothing demo.ascending demo.provider
           demo.planned demo.world
           (diag.FromErr "invalid resource id: ") demo.planned demo.world);
    reflexivity.
Defined.

(** ** The handlers return *)

Section Totality.

Context {Server : Type}.
Variable rangeRouters :
  gmap string tsuru.AppCertificatesRouter → list (string * tsuru.AppCertificatesRouter).
Variable meta : tsuruProvider Server.

(** No handler panics: a parse for three parts that succeeds gives the
    parts that the handlers index. *)
Lemma handlers_return d (w : World Server) :
  (∃ r, resourceTsuruCertificateIssuerRead rangeRouters d meta w = Returned r)
  ∧ (∃ r, resourceTsuruCertificateIssuerSet rangeRouters d meta w = Returned r)
  ∧ (∃ r, resourceTsuruCertificateIssuerUnset rangeRouters d meta w = Returned r).
Proof.
  assert (∀ d (w : World Server),
            ∃ r, resourceTsuruCertificateIssuerRead rangeRouters d meta w
                 = Returned r) as HR.
  { intros d0 w0.
    destruct (Read_returns rangeRouters meta d0 w0) as (diags & d' & w' & ->).
    eauto. }
  split; [apply HR|]. split.
  - unfold resourceTsuruCertificateIssuerSet.
    destruct (callAppSetCertIssuer _ _ _ _) as [[err|] w']; eauto.
  - destruct (IDtoParts (schema.Id d) 3) as [parts [err|]] eqn:E.
    + unfold resourceTsuruCertificateIssuerUnset. rewrite E. eauto.
    + destruct (IDtoParts_three _ _ E) as (app & cname & issuer & ->).
      rewrite (Unset_parsed _ _ _ _ _ _ _ E).
      destruct (callAppUnsetCertIssuer _ _ _ _) as [[err|] w']; eauto.
Qed.

End Totality.

(** ** Runs on the small control plane *)

(** A read of the created binding: two routers serve the CNAME under the
    issuer, one of them has its certificate. *)
Example read_created :
  resourceTsuruCertificateIssuerRead demo.descending
    demo.created demo.provider demo.world
  = Returned
      ([],
       {| schema.id := "myapp::www.example.com::letsencrypt";
          schema.app := "myapp";
          schema.cname := "www.example.com";
          schema.issuer := "letsencrypt";
          schema.router := ["envoy"; "nginx"];
          schema.certificate := ["PEM-nginx"];
          schema.ready := true |},
       demo.fetched).
Proof. reflexivity. Qed.

(** Set on an application that the control plane does not know. *)
Example set_unknown_app :
  resourceTsuruCertificateIssuerSet demo.ascending
    (schema.Set_app "ghost" demo.planned) demo.provider demo.world
  = Returned
      ([{| diag.Severity_ := diag.Error;
           diag.Summary := "unable to set certificate issuer: App not found" |}],
       schema.Set_app "ghost" demo.planned,
       request
         (CallAppSetCertIssuer "ghost"
            {| tsuru.CertIssuerSetData.Cname := "www.example.com";
               tsuru.CertIssuerSetData.Issuer := "letsencrypt" |})
         (server demo.world) demo.world).
Proof. reflexivity. Qed.

(** Unset of the created binding, then the requests it has sent and what
    it leaves in the resource data. *)
Example unset_created :
  match resourceTsuruCertificateIssuerUnset demo.ascending
          demo.created demo.provider demo.world with
  | Returned (diags, d, w) =>
      diags = [] ∧ schema.router d = [] ∧ schema.certificate d = []
      ∧ schema.ready d = false
      ∧ calls w = [CallAppUnsetCertIssuer "myapp" "www.example.com";
                   CallAppGetCertificates "myapp"]
  | Panicked => False
  end.
Proof. vm_compute. by repeat split. Qed.

(** Fields that hold no delimiter, but between which one more appears
    once they are joined: the composed identifier has four parts. *)
Example id_of_colon_fields :
  strings.Contains "a:" ID_SEPARATOR = false
  ∧ strings.Contains ":b" ID_SEPARATOR = false
  ∧ validField "a:" = false
  ∧ strings.Split (((("a:" +:+ "::") +:+ ":b") +:+ "::") +:+ "i") ID_SEPARATOR
    = ["a"; ""; "b"; "i"].
Proof. by repeat split. Qed.

(** * More properties of the handlers *)

(** ** Every path of the handlers *)

Section Paths.

Context {Server : Type}.
Variable rangeRouters :
  gmap string tsuru.AppCertificatesRouter → list (string * tsuru.AppCertificatesRouter).
Variable meta : tsuruProvider Server.

Local Abbreviation Read := (resourceTsuruCertificateIssuerRead rangeRouters).
Local Abbreviation Set_ := (resourceTsuruCertificateIssuerSet rangeRouters).
Local Abbreviation Unset := (resourceTsuruCertificateIssuerUnset rangeRouters).

Lemma Read_path d (w : World Server) :
  ∃ diags d' w', Read d meta w = Returned (diags, d', w')
                ∧ ReadPath rangeRouters meta d w diags d' w'.
Proof.
  destruct (IDtoParts (schema.Id d) 3) as [parts [err|]] eqn:E.
  - eexists _, _, _. split; [by eapply Read_parse_error | by econstructor].
  - destruct (IDtoParts_three _ _ E) as (app & cname & issuer & ->).
    destruct (callAppGetCertificates meta app w) as [[certificates [err|]] w'] eqn:G.
    + eexists _, _, _. split; [by eapply Read_fetch_error | by econstructor].
    + eexists _, _, _. split; [by eapply Read_success | by econstructor].
Qed.

Lemma Read_path_inv d (w : World Server) diags d' w' :
  Read d meta w = Returned (diags, d', w') →
  ReadPath rangeRouters meta d w diags d' w'.
Proof.
  destruct (Read_path d w) as (diags0 & d0 & w0 & -> & HP). by intros [= <- <- <-].
Qed.

(** Set, by the answer to its request. *)
Lemma Set_path d (w : World Server) :
  Set_ d meta w =
    match callAppSetCertIssuer meta (schema.app d)
            {| tsuru.CertIssuerSetData.Cname := schema.cname d;
               tsuru.CertIssuerSetData.Issuer := schema.issuer d |} w with
    | (Some err, w') =>
        Returned (diag.Errorf "unable to set certificate issuer: " err, d, w')
    | (None, w') => Read (schema.SetId (composedId d) d) meta w'
    end.
Proof.
  unfold resourceTsuruCertificateIssuerSet.
  by destruct (callAppSetCertIssuer _ _ _ _) as [[err|] w'].
Qed.

(** Unset, when the identifier does not parse. *)
Lemma Unset_parse_error d (w : World Server) parts err :
  IDtoParts (schema.Id d) 3 = (parts, Some err) →
  Unset d meta w = Returned (diag.FromErr err, d, w).
Proof. intros E. unfold resourceTsuruCertificateIssuerUnset. by rewrite E. Qed.

End Paths.

(** ** What the handlers never do *)

Section Never.

Context {Server : Type}.
Variable rangeRouters :
  gmap string tsuru.AppCertificatesRouter → list (string * tsuru.AppCertificatesRouter).
Variable meta : tsuruProvider Server.

Local Abbreviation Read := (resourceTsuruCertificateIssuerRead rangeRouters).
Local Abbreviation Set_ := (resourceTsuruCertificateIssuerSet rangeRouters).
Local Abbreviation Unset := (resourceTsuruCertificateIssuerUnset rangeRouters).

Lemma ReadPath_identifier d (w : World Server) diags d' w' :
  ReadPath rangeRouters meta d w diags d' w' → schema.Id d' = schema.Id d.
Proof. by intros [| |???????? ->]. Qed.

Lemma ReadPath_diagnostics d (w : World Server) diags d' w' :
  ReadPath rangeRouters meta d w diags d' w' →
  diags = [] ∨ ∃ msg, diags = [{| diag.Severity_ := diag.Error; diag.Summary := msg |}].
Proof. intros [| |]; [right | right | left]; eauto. Qed.

Lemma ReadPath_requests d (w : World Server) diags d' w' :
  ReadPath rangeRouters meta d w diags d' w' →
  match IDtoParts (schema.Id d) 3 with
  | (_, Some _) => calls w' = calls w
  | (parts, None) =>
      ∃ app, parts !! 0%nat = Some app
             ∧ calls w' = calls w ++ [CallAppGetCertificates app]
  end.
Proof.
  intros [parts err E|app cname issuer certificates err w1 E G
          |app cname issuer certificates w1 d1 E G _]; rewrite E; [done|..];
    exists app; (split; [done|]); by eapply callAppGetCertificates_calls.
Qed.

(** X1. Read and unset never change the identifier, whatever they return;
    in particular unset does not clear it. Set either stores the composed
    identifier, when its request succeeded, or leaves the resource data as
    it was. *)
Theorem handlers_keep_identifier d (w : World Server) :
  (∃ diags d' w', Read d meta w = Returned (diags, d', w')
                  ∧ schema.Id d' = schema.Id d)
  ∧ (∃ diags d' w', Unset d meta w = Returned (diags, d', w')
                    ∧ schema.Id d' = schema.Id d)
  ∧ (∃ diags d' w', Set_ d meta w = Returned (diags, d', w')
       ∧ match fst (callAppSetCertIssuer meta (schema.app d)
                      {| tsuru.CertIssuerSetData.Cname := schema.cname d;
                         tsuru.CertIssuerSetData.Issuer := schema.issuer d |} w) with
         | None => schema.Id d' = composedId d
         | Some _ => d' = d
         end).
Proof.
  assert (∀ d0 (w0 : World Server),
            ∃ diags d' w', Read d0 meta w0 = Returned (diags, d', w')
                           ∧ schema.Id d' = schema.Id d0) as HR.
  { intros d0 w0.
    destruct (Read_path rangeRouters meta d0 w0) as (diags & d' & w' & E & HP).
    exists diags, d', w'. split; [done|]. by eapply ReadPath_identifier. }
  split; [apply HR|]. split.
  - destruct (IDtoParts (schema.Id d) 3) as [parts [err|]] eqn:E.
    + erewrite Unset_parse_error by done. eauto.
    + destruct (IDtoParts_three _ _ E) as (app & cname & issuer & ->).
      rewrite (Unset_parsed _ _ _ _ _ _ _ E).
      destruct (callAppUnsetCertIssuer meta app cname w) as [[err|] w1]; eauto.
  - rewrite Set_path.
    destruct (callAppSetCertIssuer _ _ _ _) as [[err|] w1]; simpl; [eauto|].
    destruct (HR (schema.SetId (composedId d) d) w1) as (diags & d' & w' & E & Hid).
    eauto.
Qed.

(** X2. No handler sends more than two requests, and none retries. Read
    sends nothing for an identifier that does not parse, and otherwise one
    get-certificates request for the first part of the identifier, whether
    or not it succeeds. Set sends its assign request, then at most one
    get-certificates request, and never an unassign request. Unset sends
    nothing, or its unassign request and then at most the get-certificates
    request for the same application, and never an assign request. *)
Theorem handlers_request_budget d (w : World Server) :
  match IDtoParts (schema.Id d) 3 with
  | (_, Some _) => requests (Read d meta w) = calls w
  | (parts, None) =>
      ∃ app, parts !! 0%nat = Some app
             ∧ requests (Read d meta w) = calls w ++ [CallAppGetCertificates app]
  end
  ∧ (∃ rest,
       requests (Set_ d meta w)
       = calls w
         ++ CallAppSetCertIssuer (schema.app d)
              {| tsuru.CertIssuerSetData.Cname := schema.cname d;
                 tsuru.CertIssuerSetData.Issuer := schema.issuer d |} :: rest
       ∧ (rest = [] ∨ ∃ app, rest = [CallAppGetCertificates app]))
  ∧ (requests (Unset d meta w) = calls w
     ∨ ∃ app cname rest,
         requests (Unset d meta w)
         = calls w ++ CallAppUnsetCertIssuer app cname :: rest
         ∧ (rest = [] ∨ rest = [CallAppGetCertificates app])).
Proof.
  assert (∀ d0 (w0 : World Server),
            match IDtoParts (schema.Id d0) 3 with
            | (_, Some _) => requests (Read d0 meta w0) = calls w0
            | (parts, None) =>
                ∃ app, parts !! 0%nat = Some app
                       ∧ requests (Read d0 meta w0)
                         = calls w0 ++ [CallAppGetCertificates app]
            end) as HR.
  { intros d0 w0.
    destruct (Read_path rangeRouters meta d0 w0) as (diags & d' & w' & -> & HP).
    apply (ReadPath_requests _ _ _ _ _ HP). }
  split; [apply HR|]. split.
  - rewrite Set_path.
    destruct (callAppSetCertIssuer _ _ _ _) as [err w1] eqn:C.
    pose proof (callAppSetCertIssuer_calls _ _ _ _ _ _ C) as Hc.
    destruct err as [err|]; simpl.
    { exists []. by rewrite Hc; auto. }
    specialize (HR (schema.SetId (composedId d) d) w1).
    destruct (IDtoParts _ 3) as [parts [err|]].
    + exists []. rewrite HR, Hc. auto.
    + destruct HR as (app & _ & ->). exists [CallAppGetCertificates app].
      rewrite Hc, <- (assoc_L (++)). eauto.
  - destruct (IDtoParts (schema.Id d) 3) as [parts [err|]] eqn:E.
    { left. by erewrite Unset_parse_error. }
    destruct (IDtoParts_three _ _ E) as (app & cname & issuer & ->).
    right. exists app, cname. rewrite (Unset_parsed _ _ _ _ _ _ _ E).
    destruct (callAppUnsetCertIssuer meta app cname w) as [err w1] eqn:C.
    pose proof (callAppUnsetCertIssuer_calls _ _ _ _ _ _ C) as Hc.
    destruct err as [err|]; simpl.
    { exists []. by rewrite Hc; auto. }
    specialize (HR d w1). rewrite E in HR. destruct HR as (app' & [= <-] & ->).
    exists [CallAppGetCertificates app]. rewrite Hc, <- (assoc_L (++)). auto.
Qed.

(** X3. Every handler returns no diagnostic or exactly one, of severity
    error: never a warning, never several. *)
Theorem handlers_return_at_most_one_error d (w : World Server) :
  let one_error (diags : diag.Diagnostics) :=
    diags = []
    ∨ ∃ msg, diags = [{| diag.Severity_ := diag.Error; diag.Summary := msg |}] in
  (∃ diags d' w', Read d meta w = Returned (diags, d', w') ∧ one_error diags)
  ∧ (∃ diags d' w', Set_ d meta w = Returned (diags, d', w') ∧ one_error diags)
  ∧ (∃ diags d' w', Unset d meta w = Returned (diags, d', w') ∧ one_error diags).
Proof.
  intros one_error.
  assert (∀ d0 (w0 : World Server),
            ∃ diags d' w', Read d0 meta w0 = Returned (diags, d', w')
                           ∧ one_error diags) as HR.
  { intros d0 w0.
    destruct (Read_path rangeRouters meta d0 w0) as (diags & d' & w' & E & HP).
    exists diags, d', w'. split; [done|]. by eapply ReadPath_diagnostics. }
  split; [apply HR|]. split.
  - rewrite Set_path.
    destruct (callAppSetCertIssuer _ _ _ _) as [[err|] w1]; [|apply HR].
    eexists _, _, _. split; [done|]. right. by eexists.
  - destruct (IDtoParts (schema.Id d) 3) as [parts [err|]] eqn:E.
    + erewrite Unset_parse_error by done.
      eexists _, _, _. split; [done|]. right. by eexists.
    + destruct (IDtoParts_three _ _ E) as (app & cname & issuer & ->).
      rewrite (Unset_parsed _ _ _ _ _ _ _ E).
      destruct (callAppUnsetCertIssuer meta app cname w) as [[err|] w1]; [|apply HR].
      eexists _, _, _. split; [done|]. right. by eexists.
Qed.

End Never.

(** ** Errors and stale attributes *)

Lemma certificatesIssued_length cname issuer l :
  List.length (certificatesIssued cname issuer l)
  ≤ List.length (routersServing cname issuer l).
Proof.
  unfold certificatesIssued, routersServing.
  induction l as [|[name router] l IH]; csimpl; [done|].
  destruct (servedUnder cname issuer router) as [c|]; csimpl; [|done].
  destruct (issued c); simpl; lia.
Qed.

Lemma Strings_length (x : list string) :
  List.length (sort.Strings x) = List.length x.
Proof. apply Permutation_length, Strings_Permutation. Qed.

Lemma HasError_nil_false (diags : diag.Diagnostics) :
  diag.HasError diags = true → diags ≠ [].
Proof. by intros H ->. Qed.

Section Refresh.

Context {Server : Type}.
Variable rangeRouters :
  gmap string tsuru.AppCertificatesRouter → list (string * tsuru.AppCertificatesRouter).
Variable meta : tsuruProvider Server.

Local Abbreviation Read := (resourceTsuruCertificateIssuerRead rangeRouters).
Local Abbreviation Set_ := (resourceTsuruCertificateIssuerSet rangeRouters).
Local Abbreviation Unset := (resourceTsuruCertificateIssuerUnset rangeRouters).

(** X4. What read returns depends on the resource data through the
    identifier only: from the same world, two resource data with the same
    identifier get the same diagnostics and the same world, and when read
    succeeds the same resource data, so that every attribute that was
    there before, [app], [cname] and [issuer] included, is overwritten. *)
Theorem read_depends_on_the_identifier_only
    d1 d2 (w : World Server) diags d1' w' :
  schema.Id d1 = schema.Id d2 →
  Read d1 meta w = Returned (diags, d1', w') →
  ∃ d2', Read d2 meta w = Returned (diags, d2', w')
         ∧ (diags = [] → d2' = d1')
         ∧ (diags ≠ [] → d1' = d1 ∧ d2' = d2).
Proof.
  intros Hid HR. apply Read_path_inv in HR.
  destruct HR as [parts err E|app cname issuer certificates err w1 E G
                 |app cname issuer certificates w1 d1' E G ->];
    rewrite Hid in E.
  - exists d2. by erewrite Read_parse_error.
  - exists d2. by erewrite Read_fetch_error.
  - eexists. split; [by eapply Read_success|]. split; [|done].
    intros _. unfold schema.Id in Hid. simpl. by rewrite Hid.
Qed.

(** X6. After a successful read the certificate list is not longer
    than the router list, holds no empty certificate, and [ready] is set
    only with a router in the router list. *)
Theorem read_lists_are_consistent d (w : World Server) d' w' :
  Read d meta w = Returned ([], d', w') →
  List.length (schema.certificate d') ≤ List.length (schema.router d')
  ∧ ("" ∉ schema.certificate d')
  ∧ (schema.ready d' = true → schema.router d' ≠ []).
Proof.
  intros HR. apply Read_path_inv in HR.
  inversion HR as [| |app cname issuer certificates w1 d1 E G Hd]; subst; simpl.
  set (l := rangeRouters (tsuru.Routers certificates)).
  pose proof (certificatesIssued_length cname issuer l) as Hlen.
  split; [by rewrite !Strings_length|]. split.
  - rewrite elem_of_Strings, elem_of_certificatesIssued.
    by intros (name & router & c & _ & _ & _ & Hne).
  - rewrite !Strings_length. intros Hready%Nat.ltb_lt Hnil.
    apply Strings_nil_inv in Hnil. rewrite Hnil in Hlen. simpl in Hlen. lia.
Qed.

(** X7. When unset returns an error, whether the identifier does not
    parse, the unassign request fails or the listing cannot be fetched
    afterwards, the resource data is as before. *)
Theorem unset_error_writes_nothing d (w : World Server) diags d' w' :
  Unset d meta w = Returned (diags, d', w') →
  diag.HasError diags = true →
  d' = d.
Proof.
  intros HU Herr%HasError_nil_false.
  destruct (IDtoParts (schema.Id d) 3) as [parts [err|]] eqn:E.
  { erewrite Unset_parse_error in HU by done. by simplify_eq. }
  destruct (IDtoParts_three _ _ E) as (app & cname & issuer & ->).
  rewrite (Unset_parsed _ _ _ _ _ _ _ E) in HU.
  destruct (callAppUnsetCertIssuer meta app cname w) as [[err|] w1].
  { by simplify_eq. }
  apply Read_path_inv in HU. by destruct HU.
Qed.

(** X8. When set returns an error it has written no attribute. Either the
    assign request failed and the resource data is as before; or the
    request succeeded and the read that follows failed, and then the
    composed identifier is stored, the rest of the resource data is as
    before, and the assignment made on the control plane is not undone:
    the requests sent are the assign request and at most a get-certificates
    request. *)
Theorem set_error_writes_no_attribute d (w : World Server) diags d' w' :
  Set_ d meta w = Returned (diags, d', w') →
  diag.HasError diags = true →
  let assigned :=
    callAppSetCertIssuer meta (schema.app d)
      {| tsuru.CertIssuerSetData.Cname := schema.cname d;
         tsuru.CertIssuerSetData.Issuer := schema.issuer d |} w in
  (d' = d ∧ w' = snd assigned
   ∧ ∃ err, fst assigned = Some err
            ∧ diags = diag.Errorf "unable to set certificate issuer: " err)
  ∨ (d' = schema.SetId (composedId d) d ∧ fst assigned = None
     ∧ (calls w' = calls (snd assigned)
        ∨ ∃ app, calls w' = calls (snd assigned) ++ [CallAppGetCertificates app])).
Proof.
  intros HS Herr%HasError_nil_false assigned. rewrite Set_path in HS.
  fold assigned in HS. destruct assigned as [[err|] w1]; simpl.
  { left. simplify_eq. eauto. }
  right. apply Read_path_inv in HS.
  pose proof (ReadPath_requests _ _ _ _ _ _ _ HS) as Hreq.
  destruct HS as [parts err E|app cname issuer certificates err w2 E G
                 |app cname issuer certificates w2 d2 E G ->]; [| |done];
    rewrite E in Hreq.
  - split; [done|]. split; [done|]. by left.
  - split; [done|]. split; [done|]. right.
    destruct Hreq as (app' & _ & ->). eauto.
Qed.

End Refresh.

(** ** The listing, as read sees it *)

Section Listing.

Variables cname issuer : string.

(** The routers found in an enumeration of a map of routers are the keys
    of the map restricted to the routers serving the CNAME under the
    issuer; the certificates found are the non-empty ones of its values. *)
Lemma served_map_to_list (m : gmap string tsuru.AppCertificatesRouter) :
  routersServing cname issuer (map_to_list m)
    ≡ₚ (map_to_list (omap (servedUnder cname issuer) m)).*1
  ∧ certificatesIssued cname issuer (map_to_list m)
      ≡ₚ omap (λ e, issued e.2) (map_to_list (omap (servedUnder cname issuer) m)).
Proof.
  unfold routersServing, certificatesIssued.
  induction m as [|name router m Hfresh IH] using map_ind.
  { by rewrite omap_empty, !map_to_list_empty. }
  destruct IH as [IHr IHc].
  rewrite !(map_to_list_insert m) by done. csimpl.
  destruct (servedUnder cname issuer router) as [c|] eqn:E; csimpl.
  - rewrite (omap_insert_Some _ _ _ _ _ E).
    rewrite !map_to_list_insert by (by rewrite lookup_omap, Hfresh).
    csimpl. destruct (issued c); by rewrite IHr, IHc.
  - rewrite (omap_insert_None _ _ _ _ E).
    by rewrite delete_id by (by rewrite lookup_omap, Hfresh).
Qed.

(** Two enumerations of a map give, once sorted, the same routers and the
    same certificates. *)
Lemma served_order range1 range2 (m : gmap string tsuru.AppCertificatesRouter) :
  range1 m ≡ₚ map_to_list m → range2 m ≡ₚ map_to_list m →
  sort.Strings (routersServing cname issuer (range1 m))
  = sort.Strings (routersServing cname issuer (range2 m))
  ∧ sort.Strings (certificatesIssued cname issuer (range1 m))
    = sort.Strings (certificatesIssued cname issuer (range2 m)).
Proof.
  intros H1 H2.
  split; apply Strings_Permutation_eq;
    unfold routersServing, certificatesIssued; by rewrite H1, H2.
Qed.

(** Two maps of routers in which every router name has the same report for
    the CNAME under the issuer give the same routers and certificates. *)
Lemma served_same_reports rangeRouters (m1 m2 : gmap string tsuru.AppCertificatesRouter) :
  (∀ m, rangeRouters m ≡ₚ map_to_list m) →
  (∀ name, m1 !! name ≫= servedUnder cname issuer
           = m2 !! name ≫= servedUnder cname issuer) →
  sort.Strings (routersServing cname issuer (rangeRouters m1))
  = sort.Strings (routersServing cname issuer (rangeRouters m2))
  ∧ sort.Strings (certificatesIssued cname issuer (rangeRouters m1))
    = sort.Strings (certificatesIssued cname issuer (rangeRouters m2)).
Proof.
  intros Hrange Hsame.
  assert (omap (servedUnder cname issuer) m1 = omap (servedUnder cname issuer) m2)
    as Hmap.
  { apply map_eq. intros name. by rewrite !lookup_omap. }
  destruct (served_map_to_list m1) as [Hr1 Hc1].
  destruct (served_map_to_list m2) as [Hr2 Hc2].
  split; apply Strings_Permutation_eq.
  - transitivity (routersServing cname issuer (map_to_list m1)).
    { unfold routersServing. by rewrite Hrange. }
    transitivity (routersServing cname issuer (map_to_list m2)).
    { by rewrite Hr1, Hr2, Hmap. }
    unfold routersServing. by rewrite Hrange.
  - transitivity (certificatesIssued cname issuer (map_to_list m1)).
    { unfold certificatesIssued. by rewrite Hrange. }
    transitivity (certificatesIssued cname issuer (map_to_list m2)).
    { by rewrite Hc1, Hc2, Hmap. }
    unfold certificatesIssued. by rewrite Hrange.
Qed.

End Listing.

(** X5. A second read of a listing that has not changed changes nothing,
    even when [range] visits the routers in another order: the resource
    data that a successful read leaves is a fixed point of read. *)
Theorem read_again_changes_nothing
    {Server : Type} (range1 range2 :
       gmap string tsuru.AppCertificatesRouter
       → list (string * tsuru.AppCertificatesRouter))
    (meta : tsuruProvider Server) d (w w' w'' : World Server)
    app cname issuer certificates :
  (∀ m, range1 m ≡ₚ map_to_list m) →
  (∀ m, range2 m ≡ₚ map_to_list m) →
  IDtoParts (schema.Id d) 3 = ([app; cname; issuer], None) →
  callAppGetCertificates meta app w = (certificates, None, w') →
  callAppGetCertificates meta app w' = (certificates, None, w'') →
  ∃ d', resourceTsuruCertificateIssuerRead range1 d meta w
        = Returned ([], d', w')
        ∧ resourceTsuruCertificateIssuerRead range2 d' meta w'
          = Returned ([], d', w'').
Proof.
  intros H1 H2 E G1 G2. eexists. split; [by eapply Read_success|].
  erewrite Read_success; [|exact E|exact G2]. simpl.
  destruct (served_order cname issuer range1 range2 (tsuru.Routers certificates))
    as [-> ->]; done.
Qed.

(** X9. Read looks at the routers that serve the CNAME under the issuer
    and at nothing else in the listing: from two listings in which every
    router name has the same report for the CNAME under the issuer (or
    none), read leaves the same resource data. *)
Theorem read_ignores_other_routers
    {Server : Type} (rangeRouters :
       gmap string tsuru.AppCertificatesRouter
       → list (string * tsuru.AppCertificatesRouter))
    (meta : tsuruProvider Server) d (w1 w1' w2 w2' : World Server)
    app cname issuer certificates1 certificates2 :
  (∀ m, rangeRouters m ≡ₚ map_to_list m) →
  IDtoParts (schema.Id d) 3 = ([app; cname; issuer], None) →
  callAppGetCertificates meta app w1 = (certificates1, None, w1') →
  callAppGetCertificates meta app w2 = (certificates2, None, w2') →
  (∀ name, tsuru.Routers certificates1 !! name ≫= servedUnder cname issuer
           = tsuru.Routers certificates2 !! name ≫= servedUnder cname issuer) →
  ∃ d', resourceTsuruCertificateIssuerRead rangeRouters d meta w1
        = Returned ([], d', w1')
        ∧ resourceTsuruCertificateIssuerRead rangeRouters d meta w2
          = Returned ([], d', w2').
Proof.
  intros Hrange E G1 G2 Hsame. eexists. split; [by eapply Read_success|].
  erewrite Read_success; [|exact E|exact G2]. simpl.
  destruct (served_same_reports cname issuer rangeRouters _ _ Hrange Hsame)
    as [-> ->]; done.
Qed.

(** ** Joining the parts of an identifier *)

Lemma consHead_nonempty c l : strings.consHead c l ≠ [].
Proof. by destruct l. Qed.

Lemma splitFrom_nonempty sep skip s : strings.splitFrom sep skip s ≠ [].
Proof.
  revert skip. induction s as [|c s IH]; intros skip; [done|].
  cbn [strings.splitFrom]. destruct skip as [|k]; [|apply IH].
  destruct (String.prefix sep (String c s)); [done | apply consHead_nonempty].
Qed.

Lemma concat_cons sep x l :
  l ≠ [] → String.concat sep (x :: l) = x +:+ sep +:+ String.concat sep l.
Proof. by destruct l. Qed.

Lemma concat_consHead sep c l :
  l ≠ [] →
  String.concat sep (strings.consHead c l) = String c (String.concat sep l).
Proof. by destruct l as [|p [|q l]]. Qed.

Lemma prefix_separator_inv c s :
  String.prefix ID_SEPARATOR (String c s) = true →
  c = ":"%char ∧ ∃ rest, s = String ":" rest.
Proof.
  unfold ID_SEPARATOR. destruct s as [|c' rest]; cbn [String.prefix];
    destruct (ascii_dec ":" c) as [<-|]; try done.
  destruct (ascii_dec ":" c') as [<-|]; [|done]. eauto.
Qed.

(** Joining what [strings.Split] gives, with the delimiter, gives back the
    string. *)
Lemma concat_splitFrom (n : nat) (s : string) :
  String.length s ≤ n →
  String.concat ID_SEPARATOR (strings.splitFrom ID_SEPARATOR 0 s) = s.
Proof.
  revert s. induction n as [|n IH]; intros [|c s] Hlen; simpl in Hlen;
    [done | lia | done |].
  cbn [strings.splitFrom].
  destruct (String.prefix ID_SEPARATOR (String c s)) eqn:Hpre.
  - apply prefix_separator_inv in Hpre as [-> [rest ->]].
    change (strings.splitFrom ID_SEPARATOR
              (String.length ID_SEPARATOR - 1) (String ":" rest))
      with (strings.splitFrom ID_SEPARATOR 0 rest).
    rewrite concat_cons by apply splitFrom_nonempty.
    rewrite IH by (simpl in Hlen; lia). done.
  - rewrite concat_consHead by apply splitFrom_nonempty.
    by rewrite IH by lia.
Qed.

(** An identifier that parses is its three parts joined by the
    delimiter. *)
Lemma IDtoParts_joined input app cname issuer :
  IDtoParts input 3 = ([app; cname; issuer], None) →
  input = (((app +:+ "::") +:+ cname) +:+ "::") +:+ issuer.
Proof.
  destruct (IDtoParts_cases input 3) as [[_ ->]|[_ [err ->]]]; [|done].
  intros [= Hsplit].
  rewrite <- (concat_splitFrom (String.length input) input) at 1 by done.
  unfold strings.Split in Hsplit. rewrite Hsplit.
  by rewrite !append_assoc.
Qed.

(** ** Set, read and unset in sequence *)

Section Lifecycle.

Context {Server : Type}.
Variable rangeRouters :
  gmap string tsuru.AppCertificatesRouter → list (string * tsuru.AppCertificatesRouter).
Variable meta : tsuruProvider Server.

Local Abbreviation Read := (resourceTsuruCertificateIssuerRead rangeRouters).
Local Abbreviation Set_ := (resourceTsuruCertificateIssuerSet rangeRouters).
Local Abbreviation Unset := (resourceTsuruCertificateIssuerUnset rangeRouters).

Lemma IDtoParts_composedId d :
  validField (schema.app d) = true → validField (schema.cname d) = true →
  validLastField (schema.issuer d) = true →
  IDtoParts (composedId d) 3
  = ([schema.app d; schema.cname d; schema.issuer d], None).
Proof.
  intros Ha Hc Hi. unfold IDtoParts, composedId. by rewrite Split_composed.
Qed.

(** X10. After a successful read the identifier is the [app], [cname] and
    [issuer] attributes joined by the delimiter: read, which fills the
    three attributes from the identifier alone (as after an import), keeps
    them consistent with it. *)
Theorem read_attributes_compose_the_identifier d (w : World Server) d' w' :
  Read d meta w = Returned ([], d', w') →
  schema.Id d' = composedId d' ∧ schema.Id d' = schema.Id d.
Proof.
  intros HR. apply Read_path_inv in HR.
  inversion HR as [| |app cname issuer certificates w1 d1 E G Hd]; subst.
  split; [|done]. by apply IDtoParts_joined in E.
Qed.

(** X11. For valid fields, a set that succeeds leaves the [app], [cname]
    and [issuer] attributes as configured, and stores the identifier
    composed from them. *)
Theorem set_keeps_the_configuration d (w : World Server) d' w' :
  validField (schema.app d) = true → validField (schema.cname d) = true →
  validLastField (schema.issuer d) = true →
  Set_ d meta w = Returned ([], d', w') →
  schema.app d' = schema.app d ∧ schema.cname d' = schema.cname d
  ∧ schema.issuer d' = schema.issuer d ∧ schema.Id d' = composedId d.
Proof.
  intros Ha Hc Hi HS. rewrite Set_path in HS.
  destruct (callAppSetCertIssuer _ _ _ _) as [[err|] w1]; [done|].
  apply Read_path_inv in HS.
  inversion HS as [| |app cname issuer certificates w2 d2 E G Hd]; subst.
  change (schema.Id (schema.SetId (composedId d) d)) with (composedId d) in E.
  rewrite IDtoParts_composedId in E by done. by simplify_eq.
Qed.

(** X12. Unset undoes what set asked for: for valid fields, after a set
    whose assign request succeeded (whether or not the read that follows
    did), the first request of unset on the resource data that set leaves
    is the unassign request for the [cname] and the [app] that set
    assigned. *)
Theorem unset_after_set_unassigns_the_same_binding
    d (w w1 : World Server) diags d' w' :
  validField (schema.app d) = true → validField (schema.cname d) = true →
  validLastField (schema.issuer d) = true →
  callAppSetCertIssuer meta (schema.app d)
    {| tsuru.CertIssuerSetData.Cname := schema.cname d;
       tsuru.CertIssuerSetData.Issuer := schema.issuer d |} w = (None, w1) →
  Set_ d meta w = Returned (diags, d', w') →
  ∃ rest, requests (Unset d' meta w')
          = calls w'
            ++ CallAppUnsetCertIssuer (schema.app d) (schema.cname d) :: rest.
Proof.
  intros Ha Hc Hi C HS. rewrite Set_path, C in HS.
  apply Read_path_inv in HS.
  assert (schema.Id d' = composedId d) as Hid.
  { by apply ReadPath_identifier in HS. }
  pose proof (IDtoParts_composedId d Ha Hc Hi) as E. rewrite <- Hid in E.
  rewrite (Unset_parsed _ _ _ _ _ _ _ E).
  destruct (callAppUnsetCertIssuer meta (schema.app d) (schema.cname d) w')
    as [err w2] eqn:U.
  pose proof (callAppUnsetCertIssuer_calls _ _ _ _ _ _ U) as Hu.
  destruct err as [err|]; simpl.
  { exists []. by rewrite Hu. }
  destruct (Read_requests rangeRouters meta d' w2) as [new ->].
  exists new. by rewrite Hu, <- (assoc_L (++)).
Qed.

End Lifecycle.

(** ** The resource definition *)

Section Definition_.

Context {Server : Type}.
Variable rangeRouters :
  gmap string tsuru.AppCertificatesRouter → list (string * tsuru.AppCertificatesRouter).
Variable resourceTsuruApplicationImport : resource.StateContextFunc Server.

(** X13. The resource definition has no update handler and needs none:
    every attribute of its schema is either required, a string, and forces
    a new resource, or is computed and cannot be configured; none is
    optional, and the list attributes hold strings. The resource data of
    the handlers has exactly the attributes of the schema, each with a
    value of the declared type. *)
Theorem resource_definition_needs_no_update :
  let r := resourceTsuruCertificateIssuer rangeRouters resourceTsuruApplicationImport in
  resource.UpdateContext r = None
  ∧ (∀ key sch, resource.Schema_ r !! key = Some sch →
       resource.Optional sch = false
       ∧ (resource.Type_ sch = resource.TypeList →
          resource.Elem sch = Some resource.TypeString)
       ∧ ((resource.Required sch = true ∧ resource.ForceNew sch = true
           ∧ resource.Computed sch = false
           ∧ resource.Type_ sch = resource.TypeString)
          ∨ (resource.Required sch = false ∧ resource.ForceNew sch = false
             ∧ resource.Computed sch = true)))
  ∧ (∀ d key,
       match resource.Schema_ r !! key with
       | Some sch => ∃ v, resource.GetOk d key = Some v
                          ∧ resource.typeOf v = resource.Type_ sch
       | None => resource.GetOk d key = None
       end).
Proof.
  intros r. split; [done|]. split.
  - intros key sch Hin. apply elem_of_map_to_list in Hin.
    vm_compute map_to_list in Hin.
    repeat (apply elem_of_cons in Hin as [Hin|Hin]);
      [injection Hin as -> ->; simpl; split_and!; (done || (left; done) || (right; done))..|].
    by apply not_elem_of_nil in Hin.
  - intros d key. unfold resource.GetOk.
    repeat (case_decide; [subst key; vm_compute; by eexists|]).
    subst r. cbn [resourceTsuruCertificateIssuer resource.Schema_].
    rewrite !lookup_insert_ne by done. by rewrite lookup_singleton_ne.
Qed.

End Definition_.

(** ** When set and unset succeed *)

Section Success.

Context {Server : Type}.
Variable rangeRouters :
  gmap string tsuru.AppCertificatesRouter → list (string * tsuru.AppCertificatesRouter).
Variable meta : tsuruProvider Server.

Local Abbreviation Read := (resourceTsuruCertificateIssuerRead rangeRouters).
Local Abbreviation Set_ := (resourceTsuruCertificateIssuerSet rangeRouters).
Local Abbreviation Unset := (resourceTsuruCertificateIssuerUnset rangeRouters).

Lemma ReadPath_success d (w : World Server) diags d' w' :
  ReadPath rangeRouters meta d w diags d' w' →
  diags = []
  ↔ ∃ app cname issuer certificates,
      IDtoParts (schema.Id d) 3 = ([app; cname; issuer], None)
      ∧ callAppGetCertificates meta app w = (certificates, None, w').
Proof.
  intros [parts err E|app cname issuer certificates err w1 E G
         |app cname issuer certificates w1 d1 E G _]; split; try done.
  - intros (app & cname & issuer & certificates & E' & _). congruence.
  - intros (app' & cname' & issuer' & certificates' & E' & G').
    rewrite E in E'. simplify_eq. congruence.
  - eauto 10.
Qed.

(** X14. Set returns no error exactly when its assign request succeeds,
    the identifier it composed parses and the listing is fetched: it does
    not look at what the listing holds, and so does not wait for a
    certificate to be issued. *)
Theorem set_succeeds_when_its_requests_do d (w : World Server) diags d' w' :
  Set_ d meta w = Returned (diags, d', w') →
  diags = []
  ↔ ∃ w1 app cname issuer certificates,
      callAppSetCertIssuer meta (schema.app d)
        {| tsuru.CertIssuerSetData.Cname := schema.cname d;
           tsuru.CertIssuerSetData.Issuer := schema.issuer d |} w = (None, w1)
      ∧ IDtoParts (composedId d) 3 = ([app; cname; issuer], None)
      ∧ callAppGetCertificates meta app w1 = (certificates, None, w').
Proof.
  intros HS. rewrite Set_path in HS.
  destruct (callAppSetCertIssuer _ _ _ _) as [[err|] w1].
  { simplify_eq. split; [done|]. by intros (? & ? & ? & ? & ? & ? & _). }
  apply Read_path_inv, ReadPath_success in HS. rewrite HS. split.
  - intros (app & cname & issuer & certificates & E & G). eauto 10.
  - intros (w1' & app & cname & issuer & certificates & [= <-] & E & G). eauto 10.
Qed.

(** X15. Unset returns no error exactly when the identifier parses, its
    unassign request succeeds and the listing is fetched afterwards: it
    does not check that the control plane has stopped listing the
    binding. *)
Theorem unset_succeeds_when_its_requests_do d (w : World Server) diags d' w' :
  Unset d meta w = Returned (diags, d', w') →
  diags = []
  ↔ ∃ w1 app cname issuer certificates,
      IDtoParts (schema.Id d) 3 = ([app; cname; issuer], None)
      ∧ callAppUnsetCertIssuer meta app cname w = (None, w1)
      ∧ callAppGetCertificates meta app w1 = (certificates, None, w').
Proof.
  intros HU.
  destruct (IDtoParts (schema.Id d) 3) as [parts [err|]] eqn:E.
  { erewrite Unset_parse_error in HU by done. simplify_eq.
    split; [done|]. by intros (? & ? & ? & ? & ? & ? & _). }
  destruct (IDtoParts_three _ _ E) as (app & cname & issuer & ->).
  rewrite (Unset_parsed _ _ _ _ _ _ _ E) in HU.
  destruct (callAppUnsetCertIssuer meta app cname w) as [[err|] w1] eqn:U.
  { simplify_eq. split; [done|].
    intros (? & ? & ? & ? & ? & [= <- <- <-] & U' & _). congruence. }
  apply Read_path_inv, ReadPath_success in HU. rewrite HU, E. split.
  - intros (app' & cname' & issuer' & certificates & [= <- <- <-] & G).
    exists w1, app, cname, issuer, certificates. by rewrite U.
  - intros (w1' & app' & cname' & issuer' & certificates & [= <- <- <-] & U' & G).
    rewrite U in U'. simplify_eq. eauto 10.
Qed.

End Success.

(** ** The further properties at work on the small control plane *)

Lemma same_reports_check cname issuer
    (m1 m2 : gmap string tsuru.AppCertificatesRouter) :
  omap (servedUnder cname issuer) m1 = omap (servedUnder cname issuer) m2 →
  ∀ name, m1 !! name ≫= servedUnder cname issuer
          = m2 !! name ≫= servedUnder cname issuer.
Proof. intros Hmap name. by rewrite <- !lookup_omap, Hmap. Qed.

Lemma read_depends_on_the_identifier_only_witness :
  ∃ d2', resourceTsuruCertificateIssuerRead demo.ascending
           scenario.stale demo.provider demo.world
         = Returned ([], d2', demo.fetched)
         ∧ (@nil diag.Diagnostic = [] → d2' = scenario.refreshed)
         ∧ (@nil diag.Diagnostic ≠ [] →
            scenario.refreshed = demo.created ∧ d2' = scenario.stale).
Proof.
  apply (read_depends_on_the_identifier_only demo.ascending demo.provider
           demo.created scenario.stale demo.world [] scenario.refreshed
           demo.fetched);
    reflexivity.
Defined.

Lemma read_again_changes_nothing_witness :
  ∃ d', resourceTsuruCertificateIssuerRead demo.ascending
          demo.created demo.provider demo.world
        = Returned ([], d', demo.fetched)
        ∧ resourceTsuruCertificateIssuerRead demo.descending
            d' demo.provider demo.fetched
          = Returned ([], d', scenario.fetchedTwice).
Proof.
  apply (read_again_changes_nothing demo.ascending demo.descending
           demo.provider demo.created demo.world demo.fetched
           scenario.fetchedTwice "myapp" "www.example.com" "letsencrypt"
           demo.listing ascending_enumerates descending_enumerates);
    reflexivity.
Defined.

Lemma read_lists_are_consistent_witness :
  List.length (schema.certificate scenario.refreshed)
  ≤ List.length (schema.router scenario.refreshed)
  ∧ ("" ∉ schema.certificate scenario.refreshed)
  ∧ (schema.ready scenario.refreshed = true
     → schema.router scenario.refreshed ≠ []).
Proof.
  apply (read_lists_are_consistent demo.descending demo.provider
           demo.created demo.world scenario.refreshed demo.fetched).
  reflexivity.
Defined.

Lemma unset_error_writes_nothing_witness : demo.created = demo.created.
Proof.
  apply (unset_error_writes_nothing demo.ascending scenario.unreadableProvider
           demo.created demo.world (diag.FromErr "Internal Server Error")
           demo.created scenario.unreadableAfterUnset);
    reflexivity.
Defined.

Lemma set_error_writes_no_attribute_witness :
  let assigned :=
    callAppSetCertIssuer scenario.unreadableProvider (schema.app demo.planned)
      {| tsuru.CertIssuerSetData.Cname := schema.cname demo.planned;
         tsuru.CertIssuerSetData.Issuer := schema.issuer demo.planned |}
      demo.world in
  (demo.created = demo.planned
   ∧ scenario.unreadableAfterSet = snd assigned
   ∧ ∃ err, fst assigned = Some err
            ∧ diag.FromErr "Internal Server Error"
              = diag.Errorf "unable to set certificate issuer: " err)
  ∨ (demo.created = schema.SetId (composedId demo.planned) demo.planned
     ∧ fst assigned = None
     ∧ (calls scenario.unreadableAfterSet = calls (snd assigned)
        ∨ ∃ app, calls scenario.unreadableAfterSet
                 = calls (snd assigned) ++ [CallAppGetCertificates app])).
Proof.
  apply (set_error_writes_no_attribute demo.ascending
           scenario.unreadableProvider demo.planned demo.world
           (diag.FromErr "Internal Server Error") demo.created
           scenario.unreadableAfterSet);
    reflexivity.
Defined.

Lemma read_ignores_other_routers_witness :
  ∃ d', resourceTsuruCertificateIssuerRead demo.descending
          demo.created demo.provider demo.world
        = Returned ([], d', demo.fetched)
        ∧ resourceTsuruCertificateIssuerRead demo.descending
            demo.created demo.provider scenario.trimmedWorld
          = Returned
              ([], d',
               request (CallAppGetCertificates "myapp")
                 (server scenario.trimmedWorld) scenario.trimmedWorld).
Proof.
  apply (read_ignores_other_routers demo.descending demo.provider
           demo.created demo.world demo.fetched scenario.trimmedWorld
           (request (CallAppGetCertificates "myapp")
              (server scenario.trimmedWorld) scenario.trimmedWorld)
           "myapp" "www.example.com" "letsencrypt"
           demo.listing scenario.trimmed descending_enumerates);
    [reflexivity | reflexivity | reflexivity |].
  apply same_reports_check. reflexivity.
Defined.

Lemma read_attributes_compose_the_identifier_witness :
  schema.Id scenario.refreshed = composedId scenario.refreshed
  ∧ schema.Id scenario.refreshed = schema.Id scenario.stale.
Proof.
  apply (read_attributes_compose_the_identifier demo.ascending demo.provider
           scenario.stale demo.world scenario.refreshed demo.fetched).
  reflexivity.
Defined.

Lemma set_keeps_the_configuration_witness :
  schema.app scenario.bound = schema.app demo.planned
  ∧ schema.cname scenario.bound = schema.cname demo.planned
  ∧ schema.issuer scenario.bound = schema.issuer demo.planned
  ∧ schema.Id scenario.bound = composedId demo.planned.
Proof.
  apply (set_keeps_the_configuration demo.ascending demo.provider
           demo.planned demo.world scenario.bound scenario.assignedFetched);
    reflexivity.
Defined.

Lemma unset_after_set_unassigns_the_same_binding_witness :
  ∃ rest,
    requests (resourceTsuruCertificateIssuerUnset demo.ascending
                scenario.bound demo.provider scenario.assignedFetched)
    = calls scenario.assignedFetched
      ++ CallAppUnsetCertIssuer (schema.app demo.planned)
           (schema.cname demo.planned) :: rest.
Proof.
  apply (unset_after_set_unassigns_the_same_binding demo.ascending
           demo.provider demo.planned demo.world scenario.assigned []
           scenario.bound scenario.assignedFetched);
    reflexivity.
Defined.

Lemma set_succeeds_when_its_requests_do_witness :
  @nil diag.Diagnostic = []
  ↔ ∃ w1 app cname issuer certificates,
      callAppSetCertIssuer demo.provider (schema.app demo.planned)
        {| tsuru.CertIssuerSetData.Cname := schema.cname demo.planned;
           tsuru.CertIssuerSetData.Issuer := schema.issuer demo.planned |}
        demo.world = (None, w1)
      ∧ IDtoParts (composedId demo.planned) 3 = ([app; cname; issuer], None)
      ∧ callAppGetCertificates demo.provider app w1
        = (certificates, None, scenario.assignedFetched).
Proof.
  apply (set_succeeds_when_its_requests_do demo.ascending demo.provider
           demo.planned demo.world [] scenario.bound scenario.assignedFetched).
  reflexivity.
Defined.

Lemma unset_succeeds_when_its_requests_do_witness :
  diag.FromErr "Internal Server Error" = []
  ↔ ∃ w1 app cname issuer certificates,
      IDtoParts (schema.Id demo.created) 3 = ([app; cname; issuer], None)
      ∧ callAppUnsetCertIssuer scenario.unreadableProvider app cname demo.world
        = (None, w1)
      ∧ callAppGetCertificates scenario.unreadableProvider app w1
        = (certificates, None, scenario.unreadableAfterUnset).
Proof.
  apply (unset_succeeds_when_its_requests_do demo.ascending
           scenario.unreadableProvider demo.created demo.world
           (diag.FromErr "Internal Server Error") demo.created
           scenario.unreadableAfterUnset).
  reflexivity.
Defined.
